(** * bnx: LAN scanner (scan.py)

    A shallow embedding of [scan.py] and the properties of its
    discovery-and-diff engine: the sweep thread that builds a device
    dictionary, the diff performed by [Scanner.update], the interval policy,
    the subnet definition read from [ip.txt], and the two timers that drive
    the application.

    Conventions.  Python [str] values are Rocq [string]s; a character stands
    for the code point of the same number, so texts range over code points
    below 256.  Python [int] is [Z].  A Python [dict] is an association list
    in insertion order.  Console output is the list of [log] calls made. *)

From Stdlib Require Import List String Ascii ZArith Lia Bool Arith.
From Stdlib Require Import DecimalString.
Import ListNotations.

Open Scope list_scope.
Open Scope string_scope.

(** ** Python dictionaries with string keys *)

Module Dict.

Definition dict (V : Type) : Type := list (string * V).

Definition keys {V : Type} (d : dict V) : list string := map fst d.

(** [k in d] *)
Definition mem {V : Type} (k : string) (d : dict V) : bool :=
  existsb (fun kv => String.eqb (fst kv) k) d.

(** [d[k]], [None] standing for [KeyError] *)
Fixpoint get {V : Type} (k : string) (d : dict V) : option V :=
  match d with
  | [] => None
  | (k', v) :: d' => if String.eqb k' k then Some v else get k d'
  end.

(** [d[k] = v]: an existing key keeps its position and takes the new value,
    a new key goes to the end. *)
Fixpoint set {V : Type} (k : string) (v : V) (d : dict V) : dict V :=
  match d with
  | [] => [(k, v)]
  | (k', v') :: d' =>
      if String.eqb k' k then (k', v) :: d' else (k', v') :: set k v d'
  end.

End Dict.

(** ** Strings *)

(** [str.lower] on code points below 256: A-Z and the Latin-1 capitals
    (0xC0-0xDE but 0xD7) move up by 32. *)
Definition lower_char (c : ascii) : ascii :=
  let n := nat_of_ascii c in
  if (((65 <=? n) && (n <=? 90))
      || ((192 <=? n) && (n <=? 222) && negb (n =? 215)))%nat
  then ascii_of_nat (n + 32) else c.

Fixpoint lower (s : string) : string :=
  match s with
  | EmptyString => EmptyString
  | String c s' => String (lower_char c) (lower s')
  end.

(** [str(n)] for an [int] *)
Definition str_int (n : Z) : string := NilZero.string_of_int (Z.to_int n).

(** ** Console *)

Inductive Fore : Type := WHITE | CYAN | RED | MAGENTA | BLUE | YELLOW | GREEN.

(** One constructor per [log(...)] call of the program, holding the values
    its f-string interpolates. *)
Inductive LogMsg : Type :=
| LogINIT (network : string)
| LogWARN (hosts : Z)
| LogERROR (e : string)
| LogINFO
| LogME (ip mac : string)
| LogNEW (ip mac vendor : string)
| LogON (ip mac : string)
| LogOFF (ip : string).

(** The message and the colour handed to [log]; the dash and the arrow of
    two messages stand as their UTF-8 bytes. *)
Definition render (m : LogMsg) : string * Fore :=
  match m with
  | LogINIT network => ("[INIT] Loaded " ++ network ++ " from ip.txt", CYAN)
  | LogWARN hosts =>
      ("[WARN] Large subnet (" ++ str_int hosts ++ " hosts) – scanning slowed", RED)
  | LogERROR e => ("[ERROR] " ++ e, RED)
  | LogINFO => ("[INFO] ip.txt changed → reloading", MAGENTA)
  | LogME ip mac => ("[ME] " ++ ip ++ " " ++ mac, BLUE)
  | LogNEW ip mac vendor =>
      ("[NEW] " ++ ip ++ " " ++ mac ++ " (" ++ vendor ++ ")", YELLOW)
  | LogON ip mac => ("[ON] " ++ ip ++ " " ++ mac, GREEN)
  | LogOFF ip => ("[OFF] " ++ ip, RED)
  end.

(** ** Devices and the sweep thread *)

(** The three-key dictionary built for each reply. *)
Record Device : Type := mkDevice { ip : string; mac : string; vendor : string }.

(** What the loop of [ScanThread.run] reads from a received packet. *)
Record Reply : Type := mkReply { psrc : string; hwsrc : string }.

(** [x or "Unknown"]: [None] and the empty string are both falsy. *)
Definition or_unknown (x : option string) : string :=
  match x with
  | Some EmptyString => "Unknown"
  | Some v => v
  | None => "Unknown"
  end.

Section ScanThread.

(** [self.parser.get_manuf], the vendor table of the [manuf] package. *)
Variable get_manuf : string -> option string.

Definition run_step (devices : Dict.dict Device) (r : Reply) : Dict.dict Device :=
  let mac := lower (hwsrc r) in
  let vendor := or_unknown (get_manuf mac) in
  Dict.set (psrc r) {| ip := psrc r; mac := mac; vendor := vendor |} devices.

(** [ScanThread.run]: the dictionary emitted through [finished_scan], given
    the replies that [srp] collected. *)
Definition run (answers : list Reply) : Dict.dict Device :=
  fold_left run_step answers [].

(** The entry a reply should end up as: its source address, its hardware
    identifier in lower case, the vendor found for that identifier. *)
Definition device_of (r : Reply) : Device :=
  {| ip := psrc r; mac := lower (hwsrc r);
     vendor := or_unknown (get_manuf (lower (hwsrc r))) |}.

End ScanThread.

(** ** The Scanner window *)

(** A table row: the three items and the background colour given to them. *)
Record Row : Type := mkRow {
  ip_item : string;
  mac_item : string;
  vendor_item : string;
  background : option string
}.

(** The attributes of [Scanner] that the program reads or assigns.  [timer]
    and [watch_timer] hold the interval each [QTimer] was started with,
    [thread] the network handed to the last [ScanThread] created. *)
Record Scanner : Type := mkScanner {
  devices : Dict.dict Device;
  scanning : bool;
  last_ip_mtime : option Z;
  network : string;
  my_ip : string;
  hosts : Z;
  status_label : string;
  table : list Row;
  timer : option Z;
  watch_timer : option Z;
  thread : option string
}.

Definition set_devices (v : Dict.dict Device) (s : Scanner) : Scanner :=
  mkScanner v (scanning s) (last_ip_mtime s) (network s) (my_ip s) (hosts s)
            (status_label s) (table s) (timer s) (watch_timer s) (thread s).

Definition set_scanning (v : bool) (s : Scanner) : Scanner :=
  mkScanner (devices s) v (last_ip_mtime s) (network s) (my_ip s) (hosts s)
            (status_label s) (table s) (timer s) (watch_timer s) (thread s).

Definition set_last_ip_mtime (v : option Z) (s : Scanner) : Scanner :=
  mkScanner (devices s) (scanning s) v (network s) (my_ip s) (hosts s)
            (status_label s) (table s) (timer s) (watch_timer s) (thread s).

(** [self.network, self.my_ip, self.hosts = ...] *)
Definition set_subnet (v : string * string * Z) (s : Scanner) : Scanner :=
  let '(n, a, h) := v in
  mkScanner (devices s) (scanning s) (last_ip_mtime s) n a h
            (status_label s) (table s) (timer s) (watch_timer s) (thread s).

Definition set_status_label (v : string) (s : Scanner) : Scanner :=
  mkScanner (devices s) (scanning s) (last_ip_mtime s) (network s) (my_ip s)
            (hosts s) v (table s) (timer s) (watch_timer s) (thread s).

Definition set_table (v : list Row) (s : Scanner) : Scanner :=
  mkScanner (devices s) (scanning s) (last_ip_mtime s) (network s) (my_ip s)
            (hosts s) (status_label s) v (timer s) (watch_timer s) (thread s).

Definition set_timer (v : option Z) (s : Scanner) : Scanner :=
  mkScanner (devices s) (scanning s) (last_ip_mtime s) (network s) (my_ip s)
            (hosts s) (status_label s) (table s) v (watch_timer s) (thread s).

Definition set_watch_timer (v : option Z) (s : Scanner) : Scanner :=
  mkScanner (devices s) (scanning s) (last_ip_mtime s) (network s) (my_ip s)
            (hosts s) (status_label s) (table s) (timer s) v (thread s).

Definition set_thread (v : option string) (s : Scanner) : Scanner :=
  mkScanner (devices s) (scanning s) (last_ip_mtime s) (network s) (my_ip s)
            (hosts s) (status_label s) (table s) (timer s) (watch_timer s) v.

(** *** [Scanner.update] *)

(** Console part, first loop: one line per entry of [new_devices]. *)
Definition update_log_line (self : Scanner) (item : string * Device) : LogMsg :=
  let '(ip, d) := item in
  if String.eqb ip (my_ip self) then LogME ip (mac d)
  else if negb (Dict.mem ip (devices self)) then LogNEW ip (mac d) (vendor d)
  else LogON ip (mac d).

(** Console part, second loop: one line per key of [self.devices] that is
    not in [new_devices]. *)
Definition update_log_off (new_devices : Dict.dict Device)
    (item : string * Device) : list LogMsg :=
  if negb (Dict.mem (fst item) new_devices) then [LogOFF (fst item)] else [].

(** Table part: one row per entry of [new_devices]. *)
Definition update_row (self : Scanner) (item : string * Device) : Row :=
  let d := snd item in
  let color :=
    if String.eqb (fst item) (my_ip self) then Some "#b6fcb6"
    else if negb (Dict.mem (fst item) (devices self)) then Some "#fff3b0"
    else None in
  {| ip_item := ip d; mac_item := mac d; vendor_item := vendor d;
     background := color |}.

(** [update(self, new_devices)]: the lines written to the console, and the
    window afterwards, with the table rebuilt and [self.devices] rebound to
    [new_devices]. *)
Definition update (self : Scanner) (new_devices : Dict.dict Device)
  : Scanner * list LogMsg :=
  let console :=
    (map (update_log_line self) new_devices
     ++ flat_map (update_log_off new_devices) (devices self))%list in
  let rows := map (update_row self) new_devices in
  (set_devices new_devices (set_table rows self), console).

(** ** Text *)

Definition in_range (lo hi : nat) (c : ascii) : bool :=
  (lo <=? nat_of_ascii c)%nat && (nat_of_ascii c <=? hi)%nat.

(** [\d] and [str.isdigit] below code point 256: the digits 0-9. *)
Definition isdigit (c : ascii) : bool := in_range 48 57 c.

(** [str.isspace] below code point 256. *)
Definition isspace (c : ascii) : bool :=
  in_range 9 13 c || in_range 28 32 c || in_range 133 133 c || in_range 160 160 c.

Fixpoint lstrip (s : list ascii) : list ascii :=
  match s with
  | c :: s' => if isspace c then lstrip s' else s
  | [] => []
  end.

Definition rstrip (s : list ascii) : list ascii := rev (lstrip (rev s)).

(** [str.strip()] *)
Definition strip (s : list ascii) : list ascii := rstrip (lstrip s).

(** ** The pattern of [re.search] *)

(** The pieces the pattern is made of: an escaped or plain character, and
    [\d+]. *)
Inductive item : Type := Lit (c : ascii) | DigitsPlus.

(** [\d+\.\d+\.\d+\.\d+/\d+] *)
Definition ip_cidr_pattern : list item :=
  [DigitsPlus; Lit "."; DigitsPlus; Lit "."; DigitsPlus; Lit "."; DigitsPlus;
   Lit "/"; DigitsPlus]%char.

(** Number of digits the text starts with. *)
Fixpoint digit_run (s : list ascii) : nat :=
  match s with
  | c :: s' => if isdigit c then S (digit_run s') else 0
  | [] => 0
  end.

(** A greedy repetition offers its longest count first and gives characters
    back one at a time, down to one. *)
Fixpoint backtrack (rest : nat -> option nat) (k : nat) : option nat :=
  match k with
  | O => None
  | S k' => match rest k with
            | Some n => Some n
            | None => backtrack rest k'
            end
  end.

(** Matching the pattern at the head of [s]: the number of characters
    matched. *)
Fixpoint match_here (p : list item) (s : list ascii) : option nat :=
  match p with
  | [] => Some 0
  | Lit c :: p' =>
      match s with
      | a :: s' => if Ascii.eqb a c then option_map S (match_here p' s') else None
      | [] => None
      end
  | DigitsPlus :: p' =>
      backtrack (fun j => option_map (Nat.add j) (match_here p' (skipn j s)))
                (digit_run s)
  end.

(** [re.search(p, s)]: the match at the leftmost position that has one;
    the result is [group(0)]. *)
Fixpoint search (p : list item) (s : list ascii) : option (list ascii) :=
  match match_here p s with
  | Some n => Some (firstn n s)
  | None => match s with
            | [] => None
            | _ :: s' => search p s'
            end
  end.

(** The language of a pattern. *)
Inductive Matches : list item -> list ascii -> Prop :=
| Matches_nil : Matches [] []
| Matches_lit c p w : Matches p w -> Matches (Lit c :: p) (c :: w)
| Matches_digits d p w :
    d <> [] -> forallb isdigit d = true -> Matches p w ->
    Matches (DigitsPlus :: p) (d ++ w)%list.

(** No literal of the pattern is a digit and no two repetitions touch. *)
Fixpoint separated (p : list item) : bool :=
  match p with
  | Lit c :: p' => negb (isdigit c) && separated p'
  | DigitsPlus :: p' =>
      match p' with DigitsPlus :: _ => false | _ => separated p' end
  | [] => true
  end.

(** ** [ipaddress.ip_interface]

    The standard library's parser, for arguments that hold no ':' (IPv6 is
    then out of reach) and whose part after '/' is a run of digits, as every
    match of the pattern is. *)

(** [s.split(sep)] for a one-character separator. *)
Fixpoint split (sep : ascii) (s : list ascii) : list (list ascii) :=
  match s with
  | [] => [[]]
  | c :: s' =>
      if Ascii.eqb c sep then [] :: split sep s'
      else match split sep s' with
           | part :: parts => (c :: part) :: parts
           | [] => [[c]]
           end
  end.

(** [int(s, 10)] for a run of digits. *)
Definition int_of_digits (s : list ascii) : Z :=
  fold_left (fun acc c => 10 * acc + (Z.of_nat (nat_of_ascii c) - 48))%Z s 0%Z.

(** [_parse_octet]; [None] stands for its [ValueError]. *)
Definition parse_octet (octet_str : list ascii) : option Z :=
  match octet_str with
  | [] => None
  | first :: _ =>
      if negb (forallb isdigit octet_str) then None
      else if (3 <? List.length octet_str)%nat then None
      else if negb (String.eqb (string_of_list_ascii octet_str) "0")
              && Ascii.eqb first "0" then None
      else if (255 <? int_of_digits octet_str)%Z then None
      else Some (int_of_digits octet_str)
  end.

(** [int.from_bytes(octets, 'big')] *)
Definition from_bytes (octets : list Z) : Z :=
  fold_left (fun acc b => Z.lor (Z.shiftl acc 8) b) octets 0%Z.

(** [_ip_int_from_string] *)
Definition ip_int_from_string (ip_str : list ascii) : option Z :=
  match split "." ip_str with
  | [a; b; c; d] =>
      match parse_octet a, parse_octet b, parse_octet c, parse_octet d with
      | Some a, Some b, Some c, Some d => Some (from_bytes [a; b; c; d])
      | _, _, _, _ => None
      end
  | _ => None
  end.

(** [sys.get_int_max_str_digits()]: [int] refuses longer digit strings. *)
Definition int_max_str_digits : nat := 4300.

(** [_prefix_from_prefix_string] *)
Definition prefix_from_prefix_string (prefixlen_str : list ascii) : option Z :=
  match prefixlen_str with
  | [] => None
  | _ :: _ =>
      if negb (forallb isdigit prefixlen_str) then None
      else if (int_max_str_digits <? List.length prefixlen_str)%nat then None
      else if (int_of_digits prefixlen_str <=? 32)%Z
           then Some (int_of_digits prefixlen_str) else None
  end.

Definition ALL_ONES : Z := (2 ^ 32 - 1)%Z.

(** An [IPv4Interface]: the address, and the network it lies in. *)
Record Interface : Type := mkInterface {
  iface_ip : Z;
  network_address : Z;
  prefixlen : Z
}.

Definition netmask (i : Interface) : Z :=
  Z.lxor ALL_ONES (Z.shiftr ALL_ONES (prefixlen i)).

Definition hostmask (i : Interface) : Z := Z.lxor (netmask i) ALL_ONES.

Definition broadcast_address (i : Interface) : Z :=
  Z.lor (network_address i) (hostmask i).

(** [network.num_addresses] *)
Definition num_addresses (i : Interface) : Z :=
  (broadcast_address i - network_address i + 1)%Z.

(** [IPv4Interface(address)], the network built with [strict=False]. *)
Definition IPv4Interface (address : list ascii) : option Interface :=
  match split "/" address with
  | [addr; mask] =>
      match ip_int_from_string addr, prefix_from_prefix_string mask with
      | Some ip_int, Some p =>
          let nm := Z.lxor ALL_ONES (Z.shiftr ALL_ONES p) in
          Some {| iface_ip := ip_int; network_address := Z.land ip_int nm;
                  prefixlen := p |}
      | _, _ => None
      end
  | _ => None
  end.

(** [str] of an address: the four bytes, most significant first. *)
Definition str_address (ip_int : Z) : string :=
  str_int (Z.land (Z.shiftr ip_int 24) 255) ++ "." ++
  str_int (Z.land (Z.shiftr ip_int 16) 255) ++ "." ++
  str_int (Z.land (Z.shiftr ip_int 8) 255) ++ "." ++
  str_int (Z.land ip_int 255).

(** [str(iface.network)] *)
Definition str_network (i : Interface) : string :=
  str_address (network_address i) ++ "/" ++ str_int (prefixlen i).

(** ** Exceptions and console output *)

Inductive exn : Type :=
| ValueError (msg : string)
| OSError (msg : string)
| SystemExit (code : Z).

(** [isinstance(e, Exception)]: [SystemExit] derives from [BaseException]
    only. *)
Definition is_Exception (e : exn) : bool :=
  match e with
  | SystemExit _ => false
  | _ => true
  end.

(** [str(e)] *)
Definition str_exn (e : exn) : string :=
  match e with
  | ValueError msg => msg
  | OSError msg => msg
  | SystemExit code => str_int code
  end.

Inductive outcome (A : Type) : Type :=
| Ret (a : A)
| Raise (e : exn).

Arguments Ret {A} a.
Arguments Raise {A} e.

(** A computation that may write to the console and may raise: its outcome
    and the lines it wrote. *)
Definition M (A : Type) : Type := outcome A * list LogMsg.

Definition ret {A : Type} (a : A) : M A := (Ret a, []).

Definition bind {A B : Type} (c : M A) (k : A -> M B) : M B :=
  match c with
  | (Ret a, out) => let (r, out') := k a in (r, (out ++ out')%list)
  | (Raise e, out) => (Raise e, out)
  end.

Notation "x <- c ;; k" := (bind c (fun x => k))
  (at level 61, c at next level, right associativity).
Notation "' p <- c ;; k" := (bind c (fun x => let 'p := x in k))
  (at level 61, p pattern, c at next level, right associativity).

Definition lift {A : Type} (o : outcome A) : M A := (o, []).

(** [log(msg, color)] *)
Definition log (m : LogMsg) : M unit := (Ret tt, [m]).

(** [sys.exit(code)] *)
Definition sys_exit {A : Type} (code : Z) : M A := (Raise (SystemExit code), []).

(** [try: body except Exception as e: handler(e)] *)
Definition try_except {A : Type} (body : M A) (handler : exn -> M A) : M A :=
  match body with
  | (Raise e, out) =>
      if is_Exception e
      then let (r, out') := handler e in (r, (out ++ out')%list)
      else (Raise e, out)
  | done => done
  end.

(** ** ip.txt *)

(** The file as one call sees it: its modification time, and its text unless
    reading is refused. *)
Record File : Type := mkFile { st_mtime : Z; content : option string }.

(** [IP_FILE]: [None] when there is no such file. *)
Definition FileSystem : Type := option File.

Definition MAX_HOSTS_WARNING : Z := 4096.

(** [IP_FILE.stat().st_mtime] *)
Definition stat (ip_file : FileSystem) : outcome Z :=
  match ip_file with
  | Some f => Ret (st_mtime f)
  | None => Raise (OSError "[Errno 2] No such file or directory: 'ip.txt'")
  end.

(** [IP_FILE.read_text()] *)
Definition read_text (ip_file : FileSystem) : outcome string :=
  match ip_file with
  | Some f =>
      match content f with
      | Some text => Ret text
      | None => Raise (OSError "[Errno 13] Permission denied: 'ip.txt'")
      end
  | None => Raise (OSError "[Errno 2] No such file or directory: 'ip.txt'")
  end.

(** [ip_interface(address)]: the IPv6 attempt fails on every argument
    without ':', which leaves the final [ValueError]. *)
Definition ip_interface (address : string) : outcome Interface :=
  match IPv4Interface (list_ascii_of_string address) with
  | Some iface => Ret iface
  | None =>
      Raise (ValueError
               ("'" ++ address ++ "' does not appear to be an IPv4 or IPv6 interface"))
  end.

(** What [load_network_from_file] returns for the matched text. *)
Definition subnet_of (ip_cidr : string) : outcome (string * string * Z) :=
  match ip_interface ip_cidr with
  | Ret iface =>
      Ret (str_network iface, str_address (iface_ip iface), num_addresses iface)
  | Raise e => Raise e
  end.

Definition load_network_from_file (ip_file : FileSystem)
  : outcome (string * string * Z) :=
  match read_text ip_file with
  | Ret text =>
      let line := strip (list_ascii_of_string text) in
      match search ip_cidr_pattern line with
      | None => Raise (ValueError "No valid IP/CIDR found in ip.txt")
      | Some m => subnet_of (string_of_list_ascii m)
      end
  | Raise e => Raise e
  end.

(** ** The methods of [Scanner] *)

(** [safe_load_ip]: the subnet read from the file; [self.last_ip_mtime] is
    refreshed on the way. *)
Definition safe_load_ip (self : Scanner) (ip_file : FileSystem)
  : M (Scanner * (string * string * Z)) :=
  try_except
    ('(network, my_ip, hosts) <- lift (load_network_from_file ip_file) ;;
     _ <- log (LogINIT network) ;;
     _ <- (if (MAX_HOSTS_WARNING <? hosts)%Z then log (LogWARN hosts) else ret tt) ;;
     mtime <- lift (stat ip_file) ;;
     ret (set_last_ip_mtime (Some mtime) self, (network, my_ip, hosts)))
    (fun e =>
       _ <- log (LogERROR (str_exn e)) ;;
       sys_exit 1).

Definition update_status (self : Scanner) : Scanner :=
  set_status_label
    ("Network: " ++ network self ++ " | Your IP: " ++ my_ip self ++ " | Auto scan")
    self.

(** [mtime != self.last_ip_mtime], the attribute being [None] at first *)
Definition mtime_differs (mtime : Z) (last : option Z) : bool :=
  match last with
  | Some m => negb (Z.eqb mtime m)
  | None => true
  end.

(** [check_ip_file].  The handler can only be entered from [stat], before
    anything is assigned, so it hands back [self] as it was. *)
Definition check_ip_file (self : Scanner) (ip_file : FileSystem) : M Scanner :=
  try_except
    (mtime <- lift (stat ip_file) ;;
     if mtime_differs mtime (last_ip_mtime self) then
       _ <- log LogINFO ;;
       '(self, subnet) <- safe_load_ip self ip_file ;;
       ret (update_status (set_subnet subnet self))
     else ret self)
    (fun _ => ret self).

Definition get_scan_interval (self : Scanner) : Z :=
  if (hosts self <=? 256)%Z then 1000%Z
  else if (hosts self <=? 1024)%Z then 2000%Z
  else 4000%Z.

(** [start_scan]: the window afterwards, and the network of the thread it
    started, if it started one. *)
Definition start_scan (self : Scanner) : Scanner * option string :=
  if scanning self then (self, None)
  else (set_thread (Some (network self)) (set_scanning true self),
        Some (network self)).

(** The slot connected to [thread.finished]. *)
Definition on_finished (self : Scanner) : Scanner := set_scanning false self.

(** [Scanner.__init__]; the subnet attributes have no value before
    [safe_load_ip] returns and are shown empty until then. *)
Definition init (ip_file : FileSystem) : M (Scanner * option string) :=
  let self :=
    {| devices := []; scanning := false; last_ip_mtime := None;
       network := EmptyString; my_ip := EmptyString; hosts := 0%Z;
       status_label := EmptyString;
       table := []; timer := None; watch_timer := None; thread := None |} in
  '(self, subnet) <- safe_load_ip self ip_file ;;
  let self := set_subnet subnet self in
  let self := update_status self in
  let self := set_timer (Some (get_scan_interval self)) self in
  let self := set_watch_timer (Some 1000%Z) self in
  ret (start_scan self).

(** ** The running application *)

(** A slot call waiting in the event loop: [update(devices)] for a
    [finished_scan] signal, the [scanning = False] slot for [finished]. *)
Inductive Slot : Type :=
| CallUpdate (new_devices : Dict.dict Device)
| CallFinished.

(** The window, the sweep threads still inside [run] (each with the network
    it was given), the slot calls not yet delivered, and the console so
    far. *)
Record Process : Type := mkProcess {
  win : Scanner;
  sweeps : list string;
  pending : list Slot;
  console : list LogMsg
}.

Inductive State : Type :=
| Alive (p : Process)
| Exited (status : Z) (console : list LogMsg).

(** What the event loop can be handed: a tick of the scan timer, a tick of
    the watch timer (with the file as it then is), the end of the [i]-th
    running sweep with the replies it collected, the delivery of the [i]-th
    waiting slot call.  A sweep in which [srp] raises and the closing of the
    window are not among the events: what is reached through them are the
    states of a process that goes on running, plus the one exit that
    [check_ip_file] can cause. *)
Inductive Event : Type :=
| ScanTick
| WatchTick (ip_file : FileSystem)
| SweepDone (i : nat) (answers : list Reply)
| Deliver (i : nat).

(** The status an uncaught exception ends the process with. *)
Definition exit_status (e : exn) : Z :=
  match e with
  | SystemExit code => code
  | _ => 1%Z
  end.

Definition remove_nth {A : Type} (i : nat) (l : list A) : list A :=
  (firstn i l ++ skipn (S i) l)%list.

Definition spawned (t : option string) : list string :=
  match t with
  | Some network => [network]
  | None => []
  end.

Definition count_finished (q : list Slot) : nat :=
  List.length (filter (fun s => match s with CallFinished => true | _ => false end) q).

Section Application.

Variable get_manuf : string -> option string.

Definition handle (ev : Event) (p : Process) : State :=
  match ev with
  | ScanTick =>
      let (w, t) := start_scan (win p) in
      Alive (mkProcess w (sweeps p ++ spawned t)%list (pending p) (console p))
  | WatchTick ip_file =>
      match check_ip_file (win p) ip_file with
      | (Ret w, out) =>
          Alive (mkProcess w (sweeps p) (pending p) (console p ++ out)%list)
      | (Raise e, out) => Exited (exit_status e) (console p ++ out)%list
      end
  | SweepDone i answers =>
      match nth_error (sweeps p) i with
      | Some _ =>
          Alive (mkProcess (win p) (remove_nth i (sweeps p))
                   (pending p ++ [CallUpdate (run get_manuf answers); CallFinished])%list
                   (console p))
      | None => Alive p
      end
  | Deliver i =>
      match nth_error (pending p) i with
      | Some (CallUpdate new_devices) =>
          let (w, out) := update (win p) new_devices in
          Alive (mkProcess w (sweeps p) (remove_nth i (pending p))
                   (console p ++ out)%list)
      | Some CallFinished =>
          Alive (mkProcess (on_finished (win p)) (sweeps p)
                   (remove_nth i (pending p)) (console p))
      | None => Alive p
      end
  end.

(** [win = Scanner()] *)
Definition startup (ip_file : FileSystem) : State :=
  match init ip_file with
  | (Ret (w, t), out) => Alive (mkProcess w (spawned t) [] out)
  | (Raise e, out) => Exited (exit_status e) out
  end.

Definition advance (s : State) (ev : Event) : State :=
  match s with
  | Alive p => handle ev p
  | Exited _ _ => s
  end.

(** The state after the events [evs], from a start with [ip_file]. *)
Definition execute (ip_file : FileSystem) (evs : list Event) : State :=
  fold_left advance evs (startup ip_file).

End Application.

(** ** The vocabulary of the properties *)

Inductive Transition : Type := SELF | NEW | PRESENT | ABSENT.

(** The tag and the address a console line stands for: [ME] is SELF, [ON]
    is PRESENT, [OFF] is ABSENT. *)
Definition classification (m : LogMsg) : option (Transition * string) :=
  match m with
  | LogME ip _ => Some (SELF, ip)
  | LogNEW ip _ _ => Some (NEW, ip)
  | LogON ip _ => Some (PRESENT, ip)
  | LogOFF ip => Some (ABSENT, ip)
  | _ => None
  end.

(** The tags given to address [a] in a run of console lines, in order. *)
Definition tags_of (a : string) (console : list LogMsg) : list Transition :=
  flat_map (fun m => match classification m with
                     | Some (t, ip) => if String.eqb ip a then [t] else []
                     | None => []
                     end) console.

(** The tag the first loop gives to a key of [new_devices]. *)
Definition fresh_tag (self : Scanner) (a : string) : Transition :=
  if String.eqb a (my_ip self) then SELF
  else if negb (Dict.mem a (devices self)) then NEW else PRESENT.

(** The classification rule of the Device Registry, read top to bottom. *)
Definition diff_rule (baseline fresh : Dict.dict Device) (selfAddress a : string)
  : option Transition :=
  if Dict.mem a fresh && String.eqb a selfAddress then Some SELF
  else if Dict.mem a fresh && negb (Dict.mem a baseline) then Some NEW
  else if Dict.mem a fresh && Dict.mem a baseline then Some PRESENT
  else if Dict.mem a baseline && negb (Dict.mem a fresh) then Some ABSENT
  else None.

(** [self.devices] after the scan cycles that delivered [history], oldest
    first. *)
Definition cycles (self : Scanner) (history : list (Dict.dict Device)) : Scanner :=
  fold_left (fun s d => fst (update s d)) history self.

(** The lines as [log] receives them. *)
Definition printed (console : list LogMsg) : list (string * Fore) :=
  map render console.

(** [needle in hay] for strings *)
Definition contains (needle hay : string) : bool :=
  match String.index 0 needle hay with Some _ => true | None => false end.

(** What the event contract asks of the output for a device [d]: a console
    line whose text shows address, hardware identifier and vendor, or a
    table row holding the three. *)
Definition line_carries (d : Device) (line : string * Fore) : bool :=
  contains (ip d) (fst line) && contains (mac d) (fst line)
  && contains (vendor d) (fst line).

Definition row_carries (d : Device) (r : Row) : bool :=
  String.eqb (ip_item r) (ip d) && String.eqb (mac_item r) (mac d)
  && String.eqb (vendor_item r) (vendor d).

(** The console line of the first loop, by tag. *)
Definition fresh_line (t : Transition) (a : string) (d : Device) : string * Fore :=
  match t with
  | SELF => ("[ME] " ++ a ++ " " ++ mac d, BLUE)
  | NEW => ("[NEW] " ++ a ++ " " ++ mac d ++ " (" ++ vendor d ++ ")", YELLOW)
  | _ => ("[ON] " ++ a ++ " " ++ mac d, GREEN)
  end.

(** The entries of a dictionary under key [a]. *)
Definition entries_for {V : Type} (a : string) (d : Dict.dict V) : Dict.dict V :=
  filter (fun kv => String.eqb (fst kv) a) d.

(** A well-formed snapshot: keys are distinct and every entry stores its own
    key. *)
Definition snapshot_ok (d : Dict.dict Device) : Prop :=
  NoDup (Dict.keys d) /\ forall k e, In (k, e) d -> ip e = k.

(** The interval policy as the specification words it. *)
Definition period (addressCount : Z) : Z :=
  if (addressCount <=? 256)%Z then 1000%Z
  else if (256 <? addressCount)%Z && (addressCount <=? 1024)%Z then 2000%Z
  else 4000%Z.

(** The [WARN] lines of a console. *)
Definition advisories (out : list LogMsg) : list LogMsg :=
  filter (fun m => match m with LogWARN _ => true | _ => false end) out.

(** The advisory of one resolution. *)
Definition warning (hosts : Z) : list LogMsg :=
  if (MAX_HOSTS_WARNING <? hosts)%Z then [LogWARN hosts] else [].

(** The process keeps at most one sweep or undelivered [finished] signal,
    and has one exactly while [self.scanning] is set. *)
Definition one_sweep (p : Process) : Prop :=
  (List.length (sweeps p) + count_finished (pending p))%nat
  = if scanning (win p) then 1%nat else 0%nat.

(** A pattern that white space cannot help or hinder: it is not empty and
    none of its literals is a white-space character. *)
Definition visible (p : list item) : bool :=
  match p with
  | [] => false
  | _ => forallb (fun i => match i with
                           | Lit c => negb (isspace c)
                           | DigitsPlus => true
                           end) p
  end.

(** The text [m] is the first match of the pattern in [s]: it matches, no
    match starts before it, and no match from its position is longer. *)
Definition first_match (p : list item) (s pre m post : list ascii) : Prop :=
  s = (pre ++ m ++ post)%list
  /\ Matches p m
  /\ forall pre' m' post',
       s = (pre' ++ m' ++ post')%list -> Matches p m' ->
       (List.length pre <= List.length pre')%nat
       /\ (List.length pre' = List.length pre ->
           (List.length m' <= List.length m)%nat).

(** Some part of [s] matches the pattern. *)
Definition has_match (p : list item) (s : list ascii) : Prop :=
  exists pre m post, s = (pre ++ m ++ post)%list /\ Matches p m.

(** ** Sample data *)

Module Sample.

Definition dev5 : Device := mkDevice "10.0.0.5" "aa:bb:cc:00:00:05" "Acme".
Definition dev9 : Device := mkDevice "10.0.0.9" "aa:bb:cc:00:00:09" "Globex".

Definition both : Dict.dict Device := [("10.0.0.5", dev5); ("10.0.0.9", dev9)].
Definition only5 : Dict.dict Device := [("10.0.0.5", dev5)].

(** A window on 10.0.0.0/24 whose baseline is [baseline]. *)
Definition window (baseline : Dict.dict Device) : Scanner :=
  {| devices := baseline; scanning := false; last_ip_mtime := Some 100%Z;
     network := "10.0.0.0/24"; my_ip := "10.0.0.5"; hosts := 256%Z;
     status_label := "Network: 10.0.0.0/24 | Your IP: 10.0.0.5 | Auto scan";
     table := []; timer := Some 1000%Z; watch_timer := Some 1000%Z;
     thread := None |}.

Definition replies : list Reply :=
  [mkReply "10.0.0.9" "AA:BB:CC:00:00:01"; mkReply "10.0.0.5" "AA:BB:CC:00:00:05";
   mkReply "10.0.0.9" "AA:BB:CC:00:00:09"].

Definition vendors (mac : string) : option string :=
  if String.eqb mac "aa:bb:cc:00:00:09" then Some "Globex" else None.

End Sample.

Module Scenario.

Definition nl : string := String (ascii_of_nat 10) EmptyString.

(** The text of the specification's parsing example. *)
Definition example_text : string := "foo" ++ nl ++ "10.0.0.5/24" ++ nl ++ "bar".

Definition file24 : FileSystem := Some (mkFile 100 (Some example_text)).
Definition file16 : FileSystem := Some (mkFile 200 (Some "172.16.5.9/16")).
Definition file16_saved_again : FileSystem := Some (mkFile 300 (Some "172.16.5.9/16")).
Definition garbled : FileSystem := Some (mkFile 200 (Some "10.0.0.5 /24")).

(** The process after a start on [file24] and the events [evs]; a process
    that has exited shows as an empty one. *)
Definition after (evs : list Event) : Process :=
  match execute Sample.vendors file24 evs with
  | Alive p => p
  | Exited _ out => mkProcess (Sample.window []) [] [] out
  end.

End Scenario.

(** The baseline and every sweep result still to be delivered are
    well-formed snapshots. *)
Definition snapshots_ok (p : Process) : Prop :=
  snapshot_ok (devices (win p))
  /\ forall d, In (CallUpdate d) (pending p) -> snapshot_ok d.

(** The tag and address of each console line, in order. *)
Definition classified (out : list LogMsg) : list (option (Transition * string)) :=
  map classification out.

(** Each string once, in the order of first appearance. *)
Fixpoint first_occurrences (l : list string) : list string :=
  match l with
  | [] => []
  | x :: l' => x :: filter (fun k => negb (String.eqb k x)) (first_occurrences l')
  end.

(** What holds of the masks for a prefix length [p], checked by
    computation: shifting all ones right by [p] leaves the low [32 - p]
    ones; the network mask and the host mask share no bit and together make
    all ones; the advisory threshold is passed exactly below /20; and the
    scan interval by prefix length. *)
Definition mask_facts (p : Z) : bool :=
  let H := Z.ones (32 - p) in
  (Z.shiftr ALL_ONES p =? H)%Z
  && (Z.land (Z.lxor ALL_ONES H) H =? 0)%Z
  && (Z.lor (Z.lxor ALL_ONES H) H =? ALL_ONES)%Z
  && (Z.lxor (Z.lxor ALL_ONES H) ALL_ONES =? H)%Z
  && Bool.eqb (MAX_HOSTS_WARNING <? 2 ^ (32 - p))%Z (p <? 20)%Z
  && (period (2 ^ (32 - p))
      =? (if 24 <=? p then 1000 else if 22 <=? p then 2000 else 4000))%Z.

(** [sep.join(parts)] for a one-character separator. *)
Fixpoint join (sep : ascii) (parts : list (list ascii)) : list ascii :=
  match parts with
  | [] => []
  | [part] => part
  | part :: parts' => (part ++ sep :: join sep parts')%list
  end.

Definition digits10 : list ascii :=
  ["0"; "1"; "2"; "3"; "4"; "5"; "6"; "7"; "8"; "9"]%char.

(** Every text of one to three digits. *)
Definition octet_texts : list (list ascii) :=
  (map (fun a => [a]) digits10
   ++ flat_map (fun a => map (fun b => [a; b]) digits10) digits10
   ++ flat_map (fun a => flat_map (fun b => map (fun c => [a; b; c]) digits10)
                           digits10) digits10)%list.

(** An octet that is accepted prints back as it was written. *)
Definition octet_prints_back (o : list ascii) : bool :=
  match parse_octet o with
  | Some v => String.eqb (str_int v) (string_of_list_ascii o)
  | None => true
  end.

(** How often a kind of line stands on a console. *)
Definition count_lines (kind : LogMsg -> bool) (out : list LogMsg) : nat :=
  List.length (filter kind out).

Definition is_INIT (m : LogMsg) : bool :=
  match m with LogINIT _ => true | _ => false end.

Definition is_INFO (m : LogMsg) : bool :=
  match m with LogINFO => true | _ => false end.

Definition is_ERROR (m : LogMsg) : bool :=
  match m with LogERROR _ => true | _ => false end.

(** The console of a live process: one [INIT] line for the start and one
    for each [INFO] line, and no [ERROR] line. *)
Definition console_ok (out : list LogMsg) : Prop :=
  count_lines is_INIT out = S (count_lines is_INFO out)
  /\ count_lines is_ERROR out = 0%nat.

(** The background a table row should have for the tag of its console
    line. *)
Definition highlight (c : option (Transition * string)) : option string :=
  match c with
  | Some (SELF, _) => Some "#b6fcb6"
  | Some (NEW, _) => Some "#fff3b0"
  | _ => None
  end.

(** The console lines that stand for address [a], in order. *)
Definition lines_about (a : string) (out : list LogMsg) : list LogMsg :=
  filter (fun m => match classification m with
                   | Some (_, ip) => String.eqb ip a
                   | None => false
                   end) out.

(** *** What parsing an address with prefix length gives, in plain
    arithmetic

    The vocabulary for the result of [load_network_from_file] on a match
    [o1.o2.o3.o4/mask]: the parser takes an octet of at most three digits
    that has no leading zero and is at most 255, and a prefix length of at
    most 32 (written with no more digits than [int] accepts); the host
    address is the text as it stands, the address count is 2^(32 - p), and
    the network is the address with its low 32 - p bits cleared, in dotted
    form, followed by '/' and p. *)

Definition leading_zero (o : list ascii) : bool :=
  match o with
  | c :: _ :: _ => Ascii.eqb c "0"
  | _ => false
  end.

Definition octet_ok (o : list ascii) : bool :=
  negb (leading_zero o) && (List.length o <=? 3)%nat && (int_of_digits o <=? 255)%Z.

Definition prefix_ok (mask : list ascii) : bool :=
  (List.length mask <=? int_max_str_digits)%nat && (int_of_digits mask <=? 32)%Z.

(** The four bytes of [v], most significant first, joined by dots. *)
Definition dotted (v : Z) : string :=
  str_int (v / 16777216) ++ "." ++ str_int ((v / 65536) mod 256) ++ "."
  ++ str_int ((v / 256) mod 256) ++ "." ++ str_int (v mod 256).

Definition address_text (o1 o2 o3 o4 : list ascii) : list ascii :=
  (o1 ++ "."%char :: o2 ++ "."%char :: o3 ++ "."%char :: o4)%list.

Definition cidr_text (o1 o2 o3 o4 mask : list ascii) : list ascii :=
  (address_text o1 o2 o3 o4 ++ "/"%char :: mask)%list.

Definition parse_of (o1 o2 o3 o4 mask : list ascii) : outcome (string * string * Z) :=
  if octet_ok o1 && octet_ok o2 && octet_ok o3 && octet_ok o4 && prefix_ok mask
  then
    let v := (((int_of_digits o1 * 256 + int_of_digits o2) * 256
               + int_of_digits o3) * 256 + int_of_digits o4)%Z in
    let p := int_of_digits mask in
    let h := (2 ^ (32 - p))%Z in
    Ret (dotted (v - v mod h) ++ "/" ++ str_int p,
         string_of_list_ascii (address_text o1 o2 o3 o4),
         h)
  else
    Raise (ValueError
             ("'" ++ string_of_list_ascii (cidr_text o1 o2 o3 o4 mask)
              ++ "' does not appear to be an IPv4 or IPv6 interface")).

(** A non-empty run of digits. *)
Definition digits (d : list ascii) : Prop := d <> [] /\ forallb isdigit d = true.

(* ================================================================== *)
(** * Properties *)

(** ** Dictionaries *)

Section DictFacts.

Context {V : Type}.
Implicit Types (d : Dict.dict V) (k : string) (v : V).

Lemma mem_cons k k' v d :
  Dict.mem k ((k', v) :: d) = String.eqb k' k || Dict.mem k d.
Proof. reflexivity. Qed.

Lemma mem_true_iff k d : Dict.mem k d = true <-> In k (Dict.keys d).
Proof.
  induction d as [|[k' v] d IH].
  - split; [discriminate | intros []].
  - rewrite mem_cons, orb_true_iff, IH, String.eqb_eq. simpl. tauto.
Qed.

Lemma mem_false_iff k d : Dict.mem k d = false <-> ~ In k (Dict.keys d).
Proof.
  rewrite <- mem_true_iff. destruct (Dict.mem k d); split; congruence.
Qed.

Lemma get_none_iff k d : Dict.get k d = None <-> Dict.mem k d = false.
Proof.
  induction d as [|[k' v] d IH]; [split; reflexivity|].
  rewrite mem_cons. simpl. destruct (String.eqb k' k); simpl; [|exact IH].
  split; discriminate.
Qed.

Lemma keys_set k v d :
  Dict.keys (Dict.set k v d) =
  if Dict.mem k d then Dict.keys d else (Dict.keys d ++ [k])%list.
Proof.
  induction d as [|[k' v'] d IH]; [reflexivity|].
  rewrite mem_cons. simpl. destruct (String.eqb k' k) eqn:E; simpl; [reflexivity|].
  fold (Dict.keys (Dict.set k v d)). rewrite IH.
  destruct (Dict.mem k d); reflexivity.
Qed.

Lemma get_set_same k v d : Dict.get k (Dict.set k v d) = Some v.
Proof.
  induction d as [|[k' v'] d IH]; simpl.
  - now rewrite String.eqb_refl.
  - destruct (String.eqb k' k) eqn:E; simpl; rewrite E; auto.
Qed.

Lemma get_set_other k k' v d :
  k <> k' -> Dict.get k' (Dict.set k v d) = Dict.get k' d.
Proof.
  intros Hne. induction d as [|[k0 v0] d IH]; simpl.
  - destruct (String.eqb_spec k k'); congruence.
  - destruct (String.eqb_spec k0 k) as [->|Hk]; simpl.
    + destruct (String.eqb_spec k k'); congruence.
    + now rewrite IH.
Qed.

Lemma NoDup_keys_set k v d :
  NoDup (Dict.keys d) -> NoDup (Dict.keys (Dict.set k v d)).
Proof.
  intros Hd. rewrite keys_set. destruct (Dict.mem k d) eqn:E; [exact Hd|].
  apply mem_false_iff in E.
  apply NoDup_rev in Hd. rewrite <- (rev_involutive (_ ++ _)%list).
  apply NoDup_rev. rewrite rev_app_distr. simpl.
  constructor; [now rewrite <- in_rev | exact Hd].
Qed.

(** In a dictionary every key heads exactly one entry, the one [get]
    returns. *)
Lemma In_get k v d :
  NoDup (Dict.keys d) -> In (k, v) d -> Dict.get k d = Some v.
Proof.
  induction d as [|[k' v'] d IH]; simpl; [tauto|].
  intros Hnd [Heq|Hin].
  - inversion Heq; subst. now rewrite String.eqb_refl.
  - inversion Hnd as [|? ? Hnotin Hnd']; subst.
    destruct (String.eqb_spec k' k) as [->|_]; [|auto].
    exfalso. apply Hnotin. change (In k (Dict.keys d)).
    unfold Dict.keys. apply in_map_iff. now exists (k, v).
Qed.

Lemma get_In k v d : Dict.get k d = Some v -> In (k, v) d.
Proof.
  induction d as [|[k' v'] d IH]; simpl; [discriminate|].
  destruct (String.eqb_spec k' k) as [->|_].
  - intros [= ->]. now left.
  - auto.
Qed.

End DictFacts.

(** ** The diff of [Scanner.update] *)

Lemma tags_of_app a l1 l2 :
  tags_of a (l1 ++ l2)%list = (tags_of a l1 ++ tags_of a l2)%list.
Proof. unfold tags_of. apply flat_map_app. Qed.

Lemma tags_of_cons a m l :
  tags_of a (m :: l) = (tags_of a [m] ++ tags_of a l)%list.
Proof. exact (tags_of_app a [m] l). Qed.

Lemma tags_of_update_log_line self a k d :
  tags_of a [update_log_line self (k, d)] =
  if String.eqb k a then [fresh_tag self k] else [].
Proof.
  unfold tags_of, update_log_line, fresh_tag. simpl.
  destruct (String.eqb k (my_ip self)); simpl;
    [|destruct (negb (Dict.mem k (devices self))); simpl];
    destruct (String.eqb k a); reflexivity.
Qed.

Lemma tags_of_first_loop self a (fresh : Dict.dict Device) :
  NoDup (Dict.keys fresh) ->
  tags_of a (map (update_log_line self) fresh) =
  if Dict.mem a fresh then [fresh_tag self a] else [].
Proof.
  induction fresh as [|[k d] fresh IH]; intros Hnd; [reflexivity|].
  inversion Hnd as [|? ? Hnotin Hnd']; subst.
  rewrite map_cons, tags_of_cons, tags_of_update_log_line, mem_cons, (IH Hnd').
  destruct (String.eqb_spec k a) as [->|Hne]; simpl; [|reflexivity].
  apply mem_false_iff in Hnotin. now rewrite Hnotin.
Qed.

Lemma tags_of_second_loop a (baseline fresh : Dict.dict Device) :
  NoDup (Dict.keys baseline) ->
  tags_of a (flat_map (update_log_off fresh) baseline) =
  if Dict.mem a baseline && negb (Dict.mem a fresh) then [ABSENT] else [].
Proof.
  induction baseline as [|[k d] baseline IH]; intros Hnd; [reflexivity|].
  inversion Hnd as [|? ? Hnotin Hnd']; subst.
  cbn [flat_map]. rewrite tags_of_app, mem_cons, (IH Hnd').
  apply mem_false_iff in Hnotin.
  unfold update_log_off; simpl.
  destruct (String.eqb_spec k a) as [->|Hne]; simpl.
  - rewrite Hnotin. simpl.
    destruct (Dict.mem a fresh); simpl; [reflexivity|].
    now rewrite String.eqb_refl.
  - destruct (Dict.mem k fresh); simpl; [reflexivity|].
    destruct (String.eqb_spec k a); [contradiction|reflexivity].
Qed.

(** The console of one [update] gives each address the tags of the rule. *)
Lemma tags_of_update self fresh a :
  NoDup (Dict.keys (devices self)) -> NoDup (Dict.keys fresh) ->
  tags_of a (snd (update self fresh)) =
  match diff_rule (devices self) fresh (my_ip self) a with
  | Some t => [t]
  | None => []
  end.
Proof.
  intros Hb Hf. unfold update; simpl.
  rewrite tags_of_app, (tags_of_first_loop self a fresh Hf),
    (tags_of_second_loop a (devices self) fresh Hb).
  unfold diff_rule, fresh_tag.
  destruct (Dict.mem a fresh), (String.eqb a (my_ip self)),
    (Dict.mem a (devices self)); reflexivity.
Qed.

(** C1.  With the baseline [self.devices] and the fresh dictionary both
    proper dictionaries (no key twice), every address that is a key of the
    baseline or of the fresh result gets exactly one tag on the console of
    [update], and it is the tag of the rule: SELF for a fresh address equal
    to [my_ip], else NEW for a fresh address not in the baseline, else
    PRESENT for a fresh address in the baseline, ABSENT for a baseline
    address not in the fresh result. *)
Theorem update_classifies_each_address_once :
  forall (self : Scanner) (fresh : Dict.dict Device) (a : string),
    NoDup (Dict.keys (devices self)) ->
    NoDup (Dict.keys fresh) ->
    In a (Dict.keys (devices self) ++ Dict.keys fresh)%list ->
    exists t : Transition,
      diff_rule (devices self) fresh (my_ip self) a = Some t
      /\ tags_of a (snd (update self fresh)) = [t]
      /\ (t = SELF <-> In a (Dict.keys fresh) /\ a = my_ip self)
      /\ (t = NEW <-> In a (Dict.keys fresh) /\ a <> my_ip self
                      /\ ~ In a (Dict.keys (devices self)))
      /\ (t = PRESENT <-> In a (Dict.keys fresh) /\ a <> my_ip self
                          /\ In a (Dict.keys (devices self)))
      /\ (t = ABSENT <-> In a (Dict.keys (devices self))
                         /\ ~ In a (Dict.keys fresh)).
Proof.
  intros self fresh a Hb Hf Hin.
  rewrite (tags_of_update self fresh a Hb Hf).
  apply in_app_iff in Hin.
  pose proof (mem_true_iff a fresh) as [Mf1 Mf2].
  pose proof (mem_true_iff a (devices self)) as [Mb1 Mb2].
  pose proof (String.eqb_eq a (my_ip self)) as [Ms1 Ms2].
  unfold diff_rule.
  destruct (Dict.mem a fresh), (String.eqb a (my_ip self)),
    (Dict.mem a (devices self)); simpl;
    try (exfalso; intuition discriminate);
    eexists; (split; [reflexivity|]); (split; [reflexivity|]);
    intuition (discriminate || congruence).
Qed.

Ltac nodup_keys :=
  repeat (constructor; [simpl; intuition discriminate|]); constructor.

Lemma update_classifies_each_address_once_witness :
  exists t : Transition,
    diff_rule Sample.both Sample.only5 "10.0.0.5" "10.0.0.9" = Some t
    /\ tags_of "10.0.0.9" (snd (update (Sample.window Sample.both) Sample.only5)) = [t]
    /\ (t = SELF <-> In "10.0.0.9" (Dict.keys Sample.only5) /\ "10.0.0.9" = "10.0.0.5")
    /\ (t = NEW <-> In "10.0.0.9" (Dict.keys Sample.only5) /\ "10.0.0.9" <> "10.0.0.5"
                    /\ ~ In "10.0.0.9" (Dict.keys Sample.both))
    /\ (t = PRESENT <-> In "10.0.0.9" (Dict.keys Sample.only5) /\ "10.0.0.9" <> "10.0.0.5"
                        /\ In "10.0.0.9" (Dict.keys Sample.both))
    /\ (t = ABSENT <-> In "10.0.0.9" (Dict.keys Sample.both)
                       /\ ~ In "10.0.0.9" (Dict.keys Sample.only5)).
Proof.
  apply (update_classifies_each_address_once
           (Sample.window Sample.both) Sample.only5 "10.0.0.9").
  - simpl. nodup_keys.
  - simpl. nodup_keys.
  - simpl. right. left. reflexivity.
Defined.

(** ** Replacement of the baseline *)

Lemma devices_update self fresh : devices (fst (update self fresh)) = fresh.
Proof. reflexivity. Qed.

Lemma devices_cycles self history last :
  devices (cycles self (history ++ [last])) = last.
Proof.
  unfold cycles. rewrite fold_left_app. reflexivity.
Qed.

Lemma update_logs_off self fresh a :
  In a (Dict.keys (devices self)) -> ~ In a (Dict.keys fresh) ->
  In (LogOFF a) (snd (update self fresh)).
Proof.
  intros Hb Hf. unfold update; simpl. apply in_or_app; right.
  apply in_flat_map. unfold Dict.keys in Hb. apply in_map_iff in Hb.
  destruct Hb as [[k d] [Hk Hin]]. simpl in Hk; subst k.
  exists (a, d). split; [exact Hin|].
  unfold update_log_off; simpl.
  apply mem_false_iff in Hf. rewrite Hf. simpl. now left.
Qed.

(** C7.  Whatever cycles came before, [update] leaves [self.devices] equal to
    the fresh dictionary and nothing else: the baseline before the call is
    the dictionary of the last cycle alone, and an address it holds that the
    fresh dictionary lacks gets its [OFF] line in this very call and is no
    key of the new baseline, however many earlier cycles had it. *)
Theorem update_replaces_baseline :
  forall (self : Scanner) (history : list (Dict.dict Device))
         (fresh : Dict.dict Device),
    let before := cycles self history in
    devices (fst (update before fresh)) = fresh
    /\ (forall earlier last, history = (earlier ++ [last])%list ->
          devices before = last)
    /\ (forall a, In a (Dict.keys (devices before)) -> ~ In a (Dict.keys fresh) ->
          In (LogOFF a) (snd (update before fresh))
          /\ In ("[OFF] " ++ a, RED) (printed (snd (update before fresh)))
          /\ Dict.mem a (devices (fst (update before fresh))) = false).
Proof.
  intros self history fresh before.
  split; [reflexivity|]. split.
  - intros earlier last ->. apply devices_cycles.
  - intros a Hb Hf.
    assert (Hoff : In (LogOFF a) (snd (update before fresh)))
      by (apply update_logs_off; assumption).
    repeat split.
    + exact Hoff.
    + unfold printed. apply in_map_iff. exists (LogOFF a).
      split; [reflexivity|exact Hoff].
    + rewrite devices_update. now apply mem_false_iff.
Qed.

Lemma update_replaces_baseline_witness :
  let before := cycles (Sample.window []) [Sample.both; Sample.both; Sample.both] in
  In (LogOFF "10.0.0.9") (snd (update before Sample.only5))
  /\ In ("[OFF] " ++ "10.0.0.9", RED) (printed (snd (update before Sample.only5)))
  /\ Dict.mem "10.0.0.9" (devices (fst (update before Sample.only5))) = false.
Proof.
  destruct (update_replaces_baseline (Sample.window [])
              [Sample.both; Sample.both; Sample.both] Sample.only5)
    as [_ [_ Hoff]].
  apply (Hoff "10.0.0.9").
  - simpl. right. left. reflexivity.
  - simpl. intros [H|[]]. discriminate H.
Defined.

(** ** What an event carries *)

Lemma fresh_tag_cases self a :
  fresh_tag self a = SELF \/ fresh_tag self a = NEW \/ fresh_tag self a = PRESENT.
Proof.
  unfold fresh_tag. destruct (String.eqb a (my_ip self)); [auto|].
  destruct (negb (Dict.mem a (devices self))); auto.
Qed.

Lemma render_update_log_line self a d :
  render (update_log_line self (a, d)) = fresh_line (fresh_tag self a) a d.
Proof.
  unfold update_log_line, fresh_tag, fresh_line.
  destruct (String.eqb a (my_ip self)); [reflexivity|].
  destruct (negb (Dict.mem a (devices self))); reflexivity.
Qed.

(** Every line of the console of [update] is either the line of a fresh
    entry, with the constructor of its tag, or the [OFF] line of a baseline
    address that the fresh dictionary lacks. *)
Lemma update_console_lines self fresh m :
  In m (snd (update self fresh)) ->
  (exists a d,
      In (a, d) fresh
      /\ ((a = my_ip self /\ m = LogME a (mac d))
          \/ (a <> my_ip self /\ ~ In a (Dict.keys (devices self))
              /\ m = LogNEW a (mac d) (vendor d))
          \/ (a <> my_ip self /\ In a (Dict.keys (devices self))
              /\ m = LogON a (mac d))))
  \/ (exists a, In a (Dict.keys (devices self)) /\ ~ In a (Dict.keys fresh)
                /\ m = LogOFF a).
Proof.
  unfold update. cbn [snd]. intros Hm. apply in_app_iff in Hm as [Hm|Hm].
  - left. apply in_map_iff in Hm as [[a d] [<- Hin]]. exists a, d.
    split; [exact Hin|]. unfold update_log_line.
    destruct (String.eqb_spec a (my_ip self)) as [Hs|Hs]; [now left|right].
    destruct (Dict.mem a (devices self)) eqn:E; cbn [negb].
    + right. apply mem_true_iff in E. auto.
    + left. apply mem_false_iff in E. auto.
  - right. apply in_flat_map in Hm as [[k d] [Hin Hm]].
    unfold update_log_off in Hm. cbn [fst] in Hm.
    destruct (Dict.mem k fresh) eqn:E; cbn [negb] in Hm; [destruct Hm|].
    destruct Hm as [<-|[]]. exists k. split; [|split; [|reflexivity]].
    + unfold Dict.keys. apply in_map_iff. now exists (k, d).
    + now apply mem_false_iff.
Qed.

Lemma lines_about_app a out1 out2 :
  lines_about a (out1 ++ out2)%list = (lines_about a out1 ++ lines_about a out2)%list.
Proof. apply filter_app. Qed.

Lemma lines_about_first_loop self a (fresh : Dict.dict Device) :
  ~ In a (Dict.keys fresh) ->
  lines_about a (map (update_log_line self) fresh) = [].
Proof.
  induction fresh as [|[k d] fresh IH]; intros Hnot; [reflexivity|].
  cbn [map]. unfold lines_about. cbn [filter].
  assert (Hc : classification (update_log_line self (k, d))
               = Some (fresh_tag self k, k)).
  { unfold update_log_line, fresh_tag.
    destruct (String.eqb k (my_ip self)); [reflexivity|].
    destruct (negb (Dict.mem k (devices self))); reflexivity. }
  rewrite Hc. destruct (String.eqb_spec k a) as [->|_].
  - exfalso. apply Hnot. now left.
  - apply IH. intros Hin. apply Hnot. now right.
Qed.

Lemma lines_about_second_loop a (baseline fresh : Dict.dict Device) :
  NoDup (Dict.keys baseline) ->
  lines_about a (flat_map (update_log_off fresh) baseline)
  = if Dict.mem a baseline && negb (Dict.mem a fresh) then [LogOFF a] else [].
Proof.
  induction baseline as [|[k d] baseline IH]; intros Hnd; [reflexivity|].
  inversion Hnd as [|? ? Hnotin Hnd']; subst.
  cbn [flat_map]. rewrite lines_about_app, mem_cons, (IH Hnd').
  apply mem_false_iff in Hnotin.
  unfold update_log_off. cbn [fst].
  destruct (String.eqb_spec k a) as [->|Hne]; cbn [orb].
  - rewrite Hnotin. cbn [andb].
    destruct (Dict.mem a fresh); cbn [negb]; [reflexivity|].
    unfold lines_about. cbn [filter classification].
    now rewrite String.eqb_refl.
  - destruct (Dict.mem k fresh); cbn [negb]; [reflexivity|].
    unfold lines_about at 1. cbn [filter classification].
    destruct (String.eqb_spec k a); [contradiction|reflexivity].
Qed.

(** C8, as the program has it.  In one [update], an entry of the fresh
    dictionary gets a console line with its tag, its address and its
    hardware identifier (the vendor too when the tag is NEW) and a table row
    with the address, hardware identifier and vendor stored in the entry; an
    address of the baseline that the fresh dictionary lacks gets the console
    line "[OFF] address" and nothing more.  Nothing more: every line on the
    console is the line of a fresh entry or such an [OFF] line; every line
    that stands for an absent address is its [OFF] line, whose text is the
    tag and the address; with a proper baseline that line is the only one for
    the address; and no table row shows the address, the table having rows
    for fresh entries only. *)
Theorem update_event_fields :
  forall (self : Scanner) (fresh : Dict.dict Device),
    let out := update self fresh in
    (forall a d, In (a, d) fresh ->
       In (fresh_line (fresh_tag self a) a d) (printed (snd out))
       /\ exists c, In (mkRow (ip d) (mac d) (vendor d) c) (table (fst out)))
    /\ (forall a, In a (Dict.keys (devices self)) -> ~ In a (Dict.keys fresh) ->
          In ("[OFF] " ++ a, RED) (printed (snd out)))
    /\ (forall r, In r (table (fst out)) ->
          exists a d, In (a, d) fresh /\ ip_item r = ip d
                      /\ mac_item r = mac d /\ vendor_item r = vendor d)
    /\ (forall m, In m (snd out) ->
          (exists a d,
              In (a, d) fresh
              /\ ((a = my_ip self /\ m = LogME a (mac d))
                  \/ (a <> my_ip self /\ ~ In a (Dict.keys (devices self))
                      /\ m = LogNEW a (mac d) (vendor d))
                  \/ (a <> my_ip self /\ In a (Dict.keys (devices self))
                      /\ m = LogON a (mac d))))
          \/ (exists a, In a (Dict.keys (devices self))
                        /\ ~ In a (Dict.keys fresh) /\ m = LogOFF a))
    /\ (forall a, In a (Dict.keys (devices self)) -> ~ In a (Dict.keys fresh) ->
          (forall m t, In m (snd out) -> classification m = Some (t, a) ->
             m = LogOFF a /\ render m = ("[OFF] " ++ a, RED))
          /\ (NoDup (Dict.keys (devices self)) ->
              lines_about a (snd out) = [LogOFF a])
          /\ ((forall k e, In (k, e) fresh -> ip e = k) ->
              forall r, In r (table (fst out)) -> ip_item r <> a)).
Proof.
  intros self fresh out.
  assert (Hrows : forall r, In r (table (fst out)) ->
            exists a d, In (a, d) fresh /\ ip_item r = ip d
                        /\ mac_item r = mac d /\ vendor_item r = vendor d).
  { intros r Hr. unfold out, update in Hr; simpl in Hr.
    apply in_map_iff in Hr. destruct Hr as [[a d] [<- Hin]].
    exists a, d. repeat split. exact Hin. }
  split; [|split; [|split; [exact Hrows|split]]].
  - intros a d Hin. split.
    + rewrite <- render_update_log_line. unfold printed. apply in_map.
      unfold out, update; cbn [snd]. apply in_or_app; left.
      now apply (in_map (update_log_line self) fresh (a, d)).
    + eexists. unfold out, update; simpl.
      apply in_map_iff. exists (a, d). split; [reflexivity|assumption].
  - intros a Hb Hf. unfold printed. apply in_map_iff. exists (LogOFF a).
    split; [reflexivity|]. now apply update_logs_off.
  - intros m. apply update_console_lines.
  - intros a Hb Hf. split; [|split].
    + intros m t Hm Hc.
      destruct (update_console_lines self fresh m Hm)
        as [[a' [d [Hin [[_ ->]|[[_ [_ ->]]|[_ [_ ->]]]]]]]|[a' [_ [_ ->]]]];
        cbn [classification] in Hc; injection Hc as _ <-;
        try (exfalso; apply Hf; unfold Dict.keys; apply in_map_iff;
             now exists (a', d)).
      split; reflexivity.
    + intros Hnd. unfold out, update. cbn [snd].
      rewrite lines_about_app, (lines_about_first_loop self a fresh Hf),
        (lines_about_second_loop a (devices self) fresh Hnd).
      apply mem_true_iff in Hb. apply mem_false_iff in Hf. now rewrite Hb, Hf.
    + intros Hip r Hr Heq. destruct (Hrows r Hr) as [k [e [Hin [Hr1 _]]]].
      apply Hf. unfold Dict.keys. apply in_map_iff. exists (k, e).
      split; [|exact Hin]. cbn [fst]. rewrite <- (Hip k e Hin). congruence.
Qed.

Lemma update_event_fields_witness :
  In (fresh_line (fresh_tag (Sample.window Sample.both) "10.0.0.5") "10.0.0.5" Sample.dev5)
     (printed (snd (update (Sample.window Sample.both) Sample.only5)))
  /\ In ("[OFF] " ++ "10.0.0.9", RED)
        (printed (snd (update (Sample.window Sample.both) Sample.only5))).
Proof.
  pose proof (update_event_fields (Sample.window Sample.both) Sample.only5)
    as [Hfresh [Hoff _]].
  split.
  - apply (Hfresh "10.0.0.5" Sample.dev5). simpl. left. reflexivity.
  - apply (Hoff "10.0.0.9").
    + simpl. right. left. reflexivity.
    + simpl. intros [H|[]]. discriminate H.
Defined.

(** C8 as worded fails: 10.0.0.9 leaves, and neither the console nor the
    table shows its hardware identifier or vendor. *)
Lemma update_absent_event_counterexample :
  let self := Sample.window Sample.both in
  let out := update self Sample.only5 in
  In ("10.0.0.9", Sample.dev9) (devices self)
  /\ ~ In "10.0.0.9" (Dict.keys Sample.only5)
  /\ tags_of "10.0.0.9" (snd out) = [ABSENT]
  /\ printed (snd out) =
       [("[ME] 10.0.0.5 aa:bb:cc:00:00:05", BLUE); ("[OFF] 10.0.0.9", RED)]
  /\ table (fst out) =
       [mkRow "10.0.0.5" "aa:bb:cc:00:00:05" "Acme" (Some "#b6fcb6")]
  /\ existsb (line_carries Sample.dev9) (printed (snd out)) = false
  /\ existsb (row_carries Sample.dev9) (table (fst out)) = false.
Proof.
  cbv zeta. repeat split; try reflexivity.
  - simpl. right. left. reflexivity.
  - simpl. intros [H|[]]. discriminate H.
Qed.

(** ** The snapshot a sweep builds *)

Lemma In_set {V : Type} (k k' : string) (v v' : V) (d : Dict.dict V) :
  In (k', v') (Dict.set k v d) -> (k', v') = (k, v) \/ In (k', v') d.
Proof.
  induction d as [|[k0 v0] d IH]; simpl.
  - intros [H|[]]; left; congruence.
  - destruct (String.eqb_spec k0 k) as [->|Hne]; simpl.
    + intros [H|H]; [left; exact (eq_sym H)|right; right; exact H].
    + intros [H|H]; [right; left; exact H|].
      destruct (IH H); [left|right; right]; assumption.
Qed.

Lemma entries_for_absent {V : Type} (a : string) (d : Dict.dict V) :
  ~ In a (Dict.keys d) -> entries_for a d = [].
Proof.
  induction d as [|[k v] d IH]; simpl; [reflexivity|].
  intros Hnot. destruct (String.eqb_spec k a) as [->|_]; [tauto|].
  apply IH. tauto.
Qed.

Lemma entries_for_get {V : Type} (a : string) (v : V) (d : Dict.dict V) :
  NoDup (Dict.keys d) -> Dict.get a d = Some v -> entries_for a d = [(a, v)].
Proof.
  induction d as [|[k v0] d IH]; simpl; [discriminate|].
  intros Hnd Hget. inversion Hnd as [|? ? Hnotin Hnd']; subst.
  destruct (String.eqb_spec k a) as [->|_].
  - injection Hget as ->. f_equal. now apply entries_for_absent.
  - now apply IH.
Qed.

Section RunFacts.

Variable get_manuf : string -> option string.

Lemma snapshot_ok_step d r : snapshot_ok d -> snapshot_ok (run_step get_manuf d r).
Proof.
  intros [Hnd Hip]. split.
  - now apply NoDup_keys_set.
  - intros k e Hin. apply In_set in Hin as [Heq|Hin]; [|now apply Hip].
    injection Heq as -> ->. reflexivity.
Qed.

Lemma snapshot_ok_fold answers : forall d,
  snapshot_ok d -> snapshot_ok (fold_left (run_step get_manuf) answers d).
Proof.
  induction answers as [|r answers IH]; simpl; intros d Hd; [exact Hd|].
  apply IH. now apply snapshot_ok_step.
Qed.

Lemma keys_fold answers : forall d a,
  In a (Dict.keys (fold_left (run_step get_manuf) answers d)) <->
  In a (Dict.keys d) \/ In a (map psrc answers).
Proof.
  induction answers as [|r answers IH]; simpl; intros d a; [tauto|].
  rewrite IH. unfold run_step at 1. rewrite keys_set.
  destruct (Dict.mem (psrc r) d) eqn:E.
  - apply mem_true_iff in E. split; [tauto|].
    intros [H|[<-|H]]; auto.
  - rewrite in_app_iff. simpl. tauto.
Qed.

Lemma get_fold_other answers : forall d a,
  (forall r, In r answers -> psrc r <> a) ->
  Dict.get a (fold_left (run_step get_manuf) answers d) = Dict.get a d.
Proof.
  induction answers as [|r answers IH]; simpl; intros d a Hne; [reflexivity|].
  rewrite IH by auto. unfold run_step. apply get_set_other. auto.
Qed.

(** C10.  The dictionary a sweep emits has no key twice, each entry stores
    its key as [ip], and its keys are the source addresses of the replies.
    When several replies share a source address the dictionary has one
    entry under it, built from the last of them: its hardware identifier
    in lower case and the vendor found for it. *)
Theorem run_snapshot_last_reply_wins :
  forall answers : list Reply,
    NoDup (Dict.keys (run get_manuf answers))
    /\ (forall k e, In (k, e) (run get_manuf answers) -> ip e = k)
    /\ (forall a, In a (Dict.keys (run get_manuf answers)) <-> In a (map psrc answers))
    /\ (forall (pre post : list Reply) (r : Reply),
          answers = (pre ++ r :: post)%list ->
          (forall r', In r' post -> psrc r' <> psrc r) ->
          Dict.get (psrc r) (run get_manuf answers) = Some (device_of get_manuf r)
          /\ entries_for (psrc r) (run get_manuf answers)
             = [(psrc r, device_of get_manuf r)]).
Proof.
  intros answers.
  assert (Hok : snapshot_ok (run get_manuf answers))
    by (apply snapshot_ok_fold; split; [constructor|intros ? ? []]).
  destruct Hok as [Hnd Hip].
  split; [exact Hnd|]. split; [exact Hip|]. split.
  - intros a. unfold run. rewrite keys_fold. simpl. tauto.
  - intros pre post r -> Hlast.
    assert (Hget : Dict.get (psrc r) (run get_manuf (pre ++ r :: post))
                   = Some (device_of get_manuf r)).
    { unfold run. rewrite fold_left_app. simpl.
      rewrite get_fold_other by exact Hlast.
      unfold run_step. apply get_set_same. }
    split; [exact Hget|now apply entries_for_get].
Qed.

End RunFacts.

Lemma run_snapshot_last_reply_wins_witness :
  Dict.get "10.0.0.9" (run Sample.vendors Sample.replies)
  = Some (mkDevice "10.0.0.9" "aa:bb:cc:00:00:09" "Globex")
  /\ entries_for "10.0.0.9" (run Sample.vendors Sample.replies)
     = [("10.0.0.9", mkDevice "10.0.0.9" "aa:bb:cc:00:00:09" "Globex")].
Proof.
  destruct (run_snapshot_last_reply_wins Sample.vendors Sample.replies)
    as [_ [_ [_ Hlast]]].
  apply (Hlast [mkReply "10.0.0.9" "AA:BB:CC:00:00:01";
                mkReply "10.0.0.5" "AA:BB:CC:00:00:05"]
               [] (mkReply "10.0.0.9" "AA:BB:CC:00:00:09")).
  - reflexivity.
  - intros r' [].
Defined.

(** ** The interval policy *)

(** C5.  [get_scan_interval] is 1000 up to 256 addresses, 2000 above 256 and
    up to 1024, 4000 above 1024; it is the policy of the specification, and
    it never decreases when the address count grows. *)
Theorem get_scan_interval_breakpoints :
  forall self : Scanner,
    (0 <= hosts self)%Z ->
    ((hosts self <= 256)%Z -> get_scan_interval self = 1000%Z)
    /\ ((256 < hosts self <= 1024)%Z -> get_scan_interval self = 2000%Z)
    /\ ((1024 < hosts self)%Z -> get_scan_interval self = 4000%Z)
    /\ get_scan_interval self = period (hosts self)
    /\ (forall other : Scanner,
          (0 <= hosts other)%Z -> (hosts self <= hosts other)%Z ->
          (get_scan_interval self <= get_scan_interval other)%Z).
Proof.
  intros self _. unfold get_scan_interval, period.
  repeat split; intros;
    repeat match goal with
           | |- context [(?a <=? ?b)%Z] => destruct (Z.leb_spec a b)
           | |- context [(?a <? ?b)%Z] => destruct (Z.ltb_spec a b)
           end; simpl; lia.
Qed.

Lemma get_scan_interval_breakpoints_witness :
  ((hosts (Sample.window []) <= 256)%Z -> get_scan_interval (Sample.window []) = 1000%Z)
  /\ ((256 < hosts (Sample.window []) <= 1024)%Z
      -> get_scan_interval (Sample.window []) = 2000%Z)
  /\ ((1024 < hosts (Sample.window []))%Z -> get_scan_interval (Sample.window []) = 4000%Z)
  /\ get_scan_interval (Sample.window []) = period (hosts (Sample.window []))
  /\ (forall other : Scanner,
        (0 <= hosts other)%Z -> (hosts (Sample.window []) <= hosts other)%Z ->
        (get_scan_interval (Sample.window []) <= get_scan_interval other)%Z).
Proof.
  apply (get_scan_interval_breakpoints (Sample.window [])). simpl. lia.
Defined.

(** ** Reading the subnet *)

Lemma load_network_from_file_raises ip_file e :
  load_network_from_file ip_file = Raise e -> is_Exception e = true.
Proof.
  unfold load_network_from_file, read_text, subnet_of, ip_interface.
  destruct ip_file as [f|]; [|intros [= <-]; reflexivity].
  destruct (content f); [|intros [= <-]; reflexivity].
  destruct (search _ _); [|intros [= <-]; reflexivity].
  destruct (IPv4Interface _); [discriminate|].
  intros [= <-]; reflexivity.
Qed.

Lemma load_network_from_file_stat ip_file r :
  load_network_from_file ip_file = Ret r ->
  exists f, ip_file = Some f /\ stat ip_file = Ret (st_mtime f).
Proof.
  destruct ip_file as [f|]; [intros _; now exists f|discriminate].
Qed.

Lemma safe_load_ip_ok self f subnet :
  load_network_from_file (Some f) = Ret subnet ->
  safe_load_ip self (Some f) =
  (Ret (set_last_ip_mtime (Some (st_mtime f)) self, subnet),
   LogINIT (fst (fst subnet)) :: warning (snd subnet)).
Proof.
  intros Hload. destruct subnet as [[n a] h].
  unfold safe_load_ip, warning. rewrite Hload. simpl.
  destruct (MAX_HOSTS_WARNING <? h)%Z; reflexivity.
Qed.

Lemma safe_load_ip_fail self ip_file e :
  load_network_from_file ip_file = Raise e ->
  safe_load_ip self ip_file = (Raise (SystemExit 1), [LogERROR (str_exn e)]).
Proof.
  intros Hload. unfold safe_load_ip. rewrite Hload. simpl.
  now rewrite (load_network_from_file_raises _ _ Hload).
Qed.

Lemma check_ip_file_missing self : check_ip_file self None = (Ret self, []).
Proof. reflexivity. Qed.

Lemma check_ip_file_same self f :
  mtime_differs (st_mtime f) (last_ip_mtime self) = false ->
  check_ip_file self (Some f) = (Ret self, []).
Proof. intros H. unfold check_ip_file. simpl. now rewrite H. Qed.

Lemma check_ip_file_reload self f subnet :
  mtime_differs (st_mtime f) (last_ip_mtime self) = true ->
  load_network_from_file (Some f) = Ret subnet ->
  check_ip_file self (Some f) =
  (Ret (update_status
          (set_subnet subnet (set_last_ip_mtime (Some (st_mtime f)) self))),
   LogINFO :: LogINIT (fst (fst subnet)) :: warning (snd subnet)).
Proof.
  intros Hd Hload. unfold check_ip_file. simpl. rewrite Hd.
  cbn [bind log]. rewrite (safe_load_ip_ok self f subnet Hload).
  simpl. now rewrite app_nil_r.
Qed.

Lemma check_ip_file_reload_fails self f e :
  mtime_differs (st_mtime f) (last_ip_mtime self) = true ->
  load_network_from_file (Some f) = Raise e ->
  check_ip_file self (Some f) =
  (Raise (SystemExit 1), [LogINFO; LogERROR (str_exn e)]).
Proof.
  intros Hd Hload. unfold check_ip_file. simpl. rewrite Hd.
  cbn [bind log]. rewrite (safe_load_ip_fail self (Some f) e Hload).
  reflexivity.
Qed.

(** ** Reloading the subnet *)

(** C2.  The window runs on 10.0.0.0/24; ip.txt is saved with a text that
    holds no address with prefix length.  The watch tick logs the change and
    the error, and the [SystemExit] of [safe_load_ip] passes the
    [except Exception] of [check_ip_file]: the process ends with status 1. *)
Theorem reload_failure_exits :
  check_ip_file (Sample.window Sample.both) Scenario.garbled
  = (Raise (SystemExit 1),
     [LogINFO; LogERROR "No valid IP/CIDR found in ip.txt"])
  /\ execute Sample.vendors Scenario.file24 [WatchTick Scenario.garbled]
     = Exited 1 [LogINIT "10.0.0.0/24"; LogINFO;
                 LogERROR "No valid IP/CIDR found in ip.txt"].
Proof. split; vm_compute; reflexivity. Qed.

(** Every failed reload ends that way, whatever the window holds. *)
Lemma reload_failure_always_exits get_manuf p f e :
  mtime_differs (st_mtime f) (last_ip_mtime (win p)) = true ->
  load_network_from_file (Some f) = Raise e ->
  handle get_manuf (WatchTick (Some f)) p
  = Exited 1 (console p ++ [LogINFO; LogERROR (str_exn e)])%list.
Proof.
  intros Hd Hload. unfold handle.
  now rewrite (check_ip_file_reload_fails (win p) f e Hd Hload).
Qed.

(** C3, as the program has it.  When the modification time differs from the
    one remembered and the file resolves, [check_ip_file] returns normally
    with the three subnet attributes replaced by the new definition, the new
    modification time remembered and the status line rewritten; the
    baseline [self.devices] is the one from before the reload. *)
Theorem reload_replaces_subnet_keeps_baseline :
  forall (self : Scanner) (f : File) (subnet : string * string * Z),
    mtime_differs (st_mtime f) (last_ip_mtime self) = true ->
    load_network_from_file (Some f) = Ret subnet ->
    exists (w : Scanner) (out : list LogMsg),
      check_ip_file self (Some f) = (Ret w, out)
      /\ (network w, my_ip w, hosts w) = subnet
      /\ last_ip_mtime w = Some (st_mtime f)
      /\ status_label w
         = "Network: " ++ fst (fst subnet) ++ " | Your IP: " ++ snd (fst subnet)
           ++ " | Auto scan"
      /\ devices w = devices self.
Proof.
  intros self f [[n a] h] Hd Hload.
  rewrite (check_ip_file_reload self f _ Hd Hload).
  eexists; eexists; split; [reflexivity|]. repeat split.
Qed.

Lemma reload_replaces_subnet_keeps_baseline_witness :
  exists (w : Scanner) (out : list LogMsg),
    check_ip_file (Sample.window Sample.both) Scenario.file16 = (Ret w, out)
    /\ (network w, my_ip w, hosts w) = ("172.16.0.0/16", "172.16.5.9", 65536%Z)
    /\ last_ip_mtime w = Some 200%Z
    /\ status_label w = "Network: 172.16.0.0/16 | Your IP: 172.16.5.9 | Auto scan"
    /\ devices w = Sample.both.
Proof.
  apply (reload_replaces_subnet_keeps_baseline (Sample.window Sample.both)
           (mkFile 200 (Some "172.16.5.9/16"))
           ("172.16.0.0/16", "172.16.5.9", 65536%Z)).
  - reflexivity.
  - vm_compute. reflexivity.
Defined.

(** C3 as worded fails: after a reload from a /24 to a /16 the scan timer
    still runs at the 1000 ms it was started with, where the policy gives
    4000 ms for the new subnet, and the baseline still holds both devices. *)
Lemma reload_counterexample :
  exists (w : Scanner) (out : list LogMsg),
    check_ip_file (Sample.window Sample.both) Scenario.file16 = (Ret w, out)
    /\ network w = "172.16.0.0/16" /\ hosts w = 65536%Z
    /\ timer w = Some 1000%Z /\ get_scan_interval w = 4000%Z
    /\ timer w <> Some (get_scan_interval w)
    /\ devices w = Sample.both /\ devices w <> [].
Proof.
  eexists; eexists. split; [vm_compute; reflexivity|].
  repeat split; try discriminate.
Qed.

(** ** The large-subnet advisory *)

Lemma advisories_app out1 out2 :
  advisories (out1 ++ out2)%list = (advisories out1 ++ advisories out2)%list.
Proof. apply filter_app. Qed.

Lemma advisories_warning h : advisories (warning h) = warning h.
Proof. unfold warning. destruct (MAX_HOSTS_WARNING <? h)%Z; reflexivity. Qed.

(** A start on a file that resolves: the window holds the subnet, the scan
    timer runs at the interval of its address count, the first sweep is
    under way and the baseline is empty. *)
Lemma startup_ok f n a h :
  load_network_from_file (Some f) = Ret (n, a, h) ->
  exists w,
    startup (Some f) = Alive (mkProcess w [n] [] (LogINIT n :: warning h))
    /\ (network w, my_ip w, hosts w) = (n, a, h)
    /\ scanning w = true /\ devices w = []
    /\ timer w = Some (get_scan_interval w).
Proof.
  intros Hload. unfold startup, init. cbn [bind].
  rewrite (safe_load_ip_ok _ f _ Hload). cbn.
  rewrite app_nil_r. eexists. split; [reflexivity|]. repeat split.
Qed.

(** C9, as the program has it.  Each resolution of a subnet with more than
    4096 addresses writes the advisory once, at startup and at every reload
    alike, and leaves the process running: [safe_load_ip] returns the
    subnet, a start on such a file yields a live process with one advisory,
    and a reload to such a file adds one advisory to the console of a process
    that stays alive. *)
Theorem advisory_on_each_resolution :
  forall (get_manuf : string -> option string) (f : File)
         (subnet : string * string * Z),
    load_network_from_file (Some f) = Ret subnet ->
    (MAX_HOSTS_WARNING < snd subnet)%Z ->
    (forall self, exists w out,
        safe_load_ip self (Some f) = (Ret (w, subnet), out)
        /\ advisories out = [LogWARN (snd subnet)])
    /\ (exists p, startup (Some f) = Alive p
                  /\ advisories (console p) = [LogWARN (snd subnet)])
    /\ (forall p, mtime_differs (st_mtime f) (last_ip_mtime (win p)) = true ->
          exists p', handle get_manuf (WatchTick (Some f)) p = Alive p'
                     /\ advisories (console p')
                        = (advisories (console p) ++ [LogWARN (snd subnet)])%list).
Proof.
  intros get_manuf f [[n a] h] Hload Hbig. cbn [snd] in *.
  assert (Hw : advisories (warning h) = [LogWARN h]).
  { rewrite advisories_warning. unfold warning.
    destruct (Z.ltb_spec MAX_HOSTS_WARNING h); [reflexivity|lia]. }
  repeat split.
  - intros self. rewrite (safe_load_ip_ok self f _ Hload).
    eexists; eexists; split; [reflexivity|]. exact Hw.
  - destruct (startup_ok f n a h Hload) as [w [Hs _]].
    rewrite Hs. eexists; split; [reflexivity|]. exact Hw.
  - intros p Hd. unfold handle.
    rewrite (check_ip_file_reload (win p) f _ Hd Hload).
    eexists; split; [reflexivity|]. cbn [console fst snd].
    rewrite advisories_app. f_equal. exact Hw.
Qed.

Lemma advisory_on_each_resolution_witness :
  exists p', handle Sample.vendors (WatchTick Scenario.file16) (Scenario.after []) = Alive p'
             /\ advisories (console p')
                = (advisories (console (Scenario.after [])) ++ [LogWARN 65536])%list.
Proof.
  destruct (advisory_on_each_resolution Sample.vendors
              (mkFile 200 (Some "172.16.5.9/16"))
              ("172.16.0.0/16", "172.16.5.9", 65536%Z)) as [_ [_ H]].
  - vm_compute. reflexivity.
  - reflexivity.
  - apply (H (Scenario.after [])). reflexivity.
Defined.

(** C9 as worded fails: a start on a /16 and one later save of the same
    file put the advisory on the console twice. *)
Lemma advisory_twice_counterexample :
  exists p,
    execute Sample.vendors Scenario.file16 [WatchTick Scenario.file16_saved_again]
    = Alive p
    /\ advisories (console p) = [LogWARN 65536; LogWARN 65536]
    /\ (1 < List.length (advisories (console p)))%nat.
Proof.
  eexists. split; [vm_compute; reflexivity|].
  split; [reflexivity|]. simpl. lia.
Qed.

(** ** One sweep at a time *)

Lemma remove_nth_split {A : Type} (l1 l2 : list A) (x : A) :
  remove_nth (List.length l1) (l1 ++ x :: l2) = (l1 ++ l2)%list.
Proof.
  unfold remove_nth. induction l1 as [|a l1 IH]; [reflexivity|].
  cbn [List.length firstn skipn app]. f_equal. exact IH.
Qed.

Lemma nth_error_remove {A : Type} (l : list A) (i : nat) (x : A) :
  nth_error l i = Some x ->
  exists l1 l2, l = (l1 ++ x :: l2)%list /\ remove_nth i l = (l1 ++ l2)%list.
Proof.
  intros H. destruct (nth_error_split l i H) as [l1 [l2 [-> <-]]].
  exists l1, l2. split; [reflexivity|apply remove_nth_split].
Qed.

Lemma count_finished_app q1 q2 :
  count_finished (q1 ++ q2) = (count_finished q1 + count_finished q2)%nat.
Proof. unfold count_finished. now rewrite filter_app, length_app. Qed.

Lemma check_ip_file_scanning self ip_file w out :
  check_ip_file self ip_file = (Ret w, out) -> scanning w = scanning self.
Proof.
  destruct ip_file as [f|]; [|now intros [= <- _]].
  destruct (mtime_differs (st_mtime f) (last_ip_mtime self)) eqn:Hd.
  - destruct (load_network_from_file (Some f)) as [[[n a] h]|e] eqn:Hload.
    + rewrite (check_ip_file_reload self f _ Hd Hload). now intros [= <- _].
    + rewrite (check_ip_file_reload_fails self f e Hd Hload). discriminate.
  - rewrite (check_ip_file_same self f Hd). now intros [= <- _].
Qed.

Section OneSweep.

Variable get_manuf : string -> option string.

Lemma handle_one_sweep ev p p' :
  one_sweep p -> handle get_manuf ev p = Alive p' -> one_sweep p'.
Proof.
  unfold one_sweep. intros Hp. destruct ev as [|ip_file|i answers|i]; simpl.
  - unfold start_scan. destruct (scanning (win p)) eqn:Hs; intros [= <-]; simpl.
    + now rewrite app_nil_r, Hs.
    + rewrite length_app. simpl. lia.
  - destruct (check_ip_file (win p) ip_file) as [[w|e] out] eqn:Hc; [|discriminate].
    intros [= <-]; simpl.
    now rewrite (check_ip_file_scanning _ _ _ _ Hc).
  - destruct (nth_error (sweeps p) i) as [n|] eqn:Hn; [|now intros [= <-]].
    intros [= <-]; simpl.
    destruct (nth_error_remove _ _ _ Hn) as [l1 [l2 [Hl ->]]].
    rewrite Hl, length_app in Hp. simpl in Hp.
    rewrite count_finished_app, length_app.
    change (count_finished [CallUpdate (run get_manuf answers); CallFinished])
      with 1%nat.
    destruct (scanning (win p)); lia.
  - destruct (nth_error (pending p) i) as [[d|]|] eqn:Hn; [| |now intros [= <-]].
    + intros [= <-]; simpl.
      destruct (nth_error_remove _ _ _ Hn) as [l1 [l2 [Hl ->]]].
      rewrite Hl, count_finished_app in Hp. simpl in Hp.
      rewrite count_finished_app.
      change (count_finished (CallUpdate d :: l2)) with (count_finished l2) in Hp.
      exact Hp.
    + intros [= <-]; simpl.
      destruct (nth_error_remove _ _ _ Hn) as [l1 [l2 [Hl ->]]].
      rewrite Hl, count_finished_app in Hp.
      change (count_finished (CallFinished :: l2)) with (S (count_finished l2)) in Hp.
      rewrite count_finished_app.
      destruct (scanning (win p)); lia.
Qed.

Lemma startup_one_sweep ip_file p : startup ip_file = Alive p -> one_sweep p.
Proof.
  unfold startup, init. cbn [bind].
  destruct (load_network_from_file ip_file) as [[[n a] h]|e] eqn:Hload.
  - destruct (load_network_from_file_stat _ _ Hload) as [f [-> _]].
    rewrite (safe_load_ip_ok _ f _ Hload). cbn.
    intros [= <-]. reflexivity.
  - rewrite (safe_load_ip_fail _ ip_file e Hload). discriminate.
Qed.

Lemma fold_advance_one_sweep evs : forall s,
  (forall p, s = Alive p -> one_sweep p) ->
  forall p, fold_left (advance get_manuf) evs s = Alive p -> one_sweep p.
Proof.
  induction evs as [|ev evs IH]; simpl; intros s Hs p Hrun; [now apply Hs|].
  apply (IH (advance get_manuf s ev)); [|exact Hrun].
  intros q Hq. destruct s as [p0|c out]; simpl in Hq; [|discriminate].
  apply (handle_one_sweep ev p0 q); [now apply Hs|exact Hq].
Qed.

(** C4.  In every state the process reaches, from any start and through
    any sequence of timer ticks, sweep completions and slot deliveries, at
    most one sweep thread is inside [run]; and while one is, [start_scan]
    starts no thread and a scan tick leaves the whole process as it was:
    nothing is started and nothing is queued. *)
Theorem at_most_one_sweep_in_flight :
  forall (ip_file : FileSystem) (evs : list Event) (p : Process),
    execute get_manuf ip_file evs = Alive p ->
    (List.length (sweeps p) <= 1)%nat
    /\ (sweeps p <> [] ->
        start_scan (win p) = (win p, None)
        /\ handle get_manuf ScanTick p = Alive p).
Proof.
  intros ip_file evs p Hrun.
  assert (Hp : one_sweep p).
  { apply (fold_advance_one_sweep evs (startup ip_file)); [|exact Hrun].
    intros q. apply startup_one_sweep. }
  unfold one_sweep in Hp. split.
  - destruct (scanning (win p)); lia.
  - intros Hne.
    assert (Hs : scanning (win p) = true).
    { destruct (scanning (win p)); [reflexivity|].
      destruct (sweeps p); [contradiction|simpl in Hp; lia]. }
    simpl. unfold start_scan. rewrite Hs. split; [reflexivity|].
    rewrite app_nil_r. destruct p; reflexivity.
Qed.

End OneSweep.

Lemma at_most_one_sweep_in_flight_witness :
  (List.length (sweeps (Scenario.after [ScanTick; ScanTick])) <= 1)%nat
  /\ (sweeps (Scenario.after [ScanTick; ScanTick]) <> [] ->
      start_scan (win (Scenario.after [ScanTick; ScanTick]))
      = (win (Scenario.after [ScanTick; ScanTick]), None)
      /\ handle Sample.vendors ScanTick (Scenario.after [ScanTick; ScanTick])
         = Alive (Scenario.after [ScanTick; ScanTick])).
Proof.
  apply (at_most_one_sweep_in_flight Sample.vendors Scenario.file24
           [ScanTick; ScanTick] (Scenario.after [ScanTick; ScanTick])).
  vm_compute. reflexivity.
Defined.

(** ** Searching the pattern *)

Lemma backtrack_first rest k n :
  rest (S k) = Some n -> backtrack rest (S k) = Some n.
Proof. intros H. simpl. now rewrite H. Qed.

Lemma backtrack_some rest k n :
  backtrack rest k = Some n ->
  exists j, (1 <= j <= k)%nat /\ rest j = Some n.
Proof.
  induction k as [|k IH]; simpl; [discriminate|].
  destruct (rest (S k)) as [m|] eqn:E.
  - intros [= <-]. exists (S k). split; [lia|exact E].
  - intros H. destruct (IH H) as [j [Hj Hr]]. exists j. split; [lia|exact Hr].
Qed.

Lemma backtrack_none rest k :
  backtrack rest k = None -> forall j, (1 <= j <= k)%nat -> rest j = None.
Proof.
  induction k as [|k IH]; simpl; intros H j Hj; [lia|].
  destruct (rest (S k)) eqn:E; [discriminate|].
  destruct (Nat.eq_dec j (S k)) as [->|Hne]; [exact E|].
  apply IH; [exact H|lia].
Qed.

Lemma backtrack_ext rest rest' k :
  (forall j, (1 <= j <= k)%nat -> rest j = rest' j) ->
  backtrack rest k = backtrack rest' k.
Proof.
  induction k as [|k IH]; simpl; intros H; [reflexivity|].
  rewrite <- (H (S k)) by lia. destruct (rest (S k)); [reflexivity|].
  apply IH. intros j Hj. apply H. lia.
Qed.

Lemma digit_run_le s : (digit_run s <= List.length s)%nat.
Proof.
  induction s as [|c s IH]; simpl; [lia|]. destruct (isdigit c); simpl; lia.
Qed.

Lemma digit_run_firstn s : forall j,
  (j <= digit_run s)%nat -> forallb isdigit (firstn j s) = true.
Proof.
  induction s as [|c s IH]; intros j Hj; simpl in Hj.
  - now rewrite firstn_nil.
  - destruct j as [|j]; [reflexivity|]. simpl.
    destruct (isdigit c); [|lia]. simpl. apply IH. lia.
Qed.

Lemma digit_run_app_ge d x :
  forallb isdigit d = true -> (List.length d <= digit_run (d ++ x))%nat.
Proof.
  induction d as [|c d IH]; simpl; [lia|].
  intros H. apply andb_true_iff in H as [Hc Hd]. rewrite Hc.
  specialize (IH Hd). lia.
Qed.

Lemma digit_run_app_stop d c x :
  forallb isdigit d = true -> isdigit c = false ->
  digit_run (d ++ c :: x) = List.length d.
Proof.
  induction d as [|a d IH]; simpl; intros Hd Hc; [now rewrite Hc|].
  apply andb_true_iff in Hd as [Ha Hd]. rewrite Ha. f_equal. now apply IH.
Qed.

Lemma digit_run_all d :
  forallb isdigit d = true -> digit_run d = List.length d.
Proof.
  induction d as [|a d IH]; simpl; [reflexivity|].
  intros Hd. apply andb_true_iff in Hd as [Ha Hd]. rewrite Ha. f_equal. now apply IH.
Qed.

Lemma skipn_length_app {A : Type} (l1 l2 : list A) :
  skipn (List.length l1) (l1 ++ l2) = l2.
Proof. induction l1; simpl; auto. Qed.

Lemma firstn_length_app {A : Type} (l1 l2 : list A) :
  firstn (List.length l1) (l1 ++ l2) = l1.
Proof. induction l1; simpl; [reflexivity|]. now f_equal. Qed.

Lemma firstn_add {A : Type} (j n : nat) (s : list A) :
  firstn (j + n) s = (firstn j s ++ firstn n (skipn j s))%list.
Proof.
  revert s. induction j as [|j IH]; intros s; [reflexivity|].
  destruct s as [|a s]; simpl; [now rewrite firstn_nil|].
  now rewrite IH.
Qed.

(** What [match_here] returns is a match, and it lies within the text. *)
Lemma match_here_sound p : forall s n,
  match_here p s = Some n ->
  (n <= List.length s)%nat /\ Matches p (firstn n s).
Proof.
  induction p as [|[c|] p IH]; intros s n; simpl.
  - intros [= <-]. split; [lia|constructor].
  - destruct s as [|a s]; [discriminate|].
    destruct (Ascii.eqb_spec a c) as [->|_]; [|discriminate].
    destruct (match_here p s) as [m|] eqn:E; [|discriminate].
    intros [= <-]. destruct (IH s m E) as [Hle Hm].
    simpl. split; [lia|now constructor].
  - intros H. apply backtrack_some in H as [j [Hj Hr]].
    destruct (match_here p (skipn j s)) as [m|] eqn:E; [|discriminate].
    injection Hr as <-. destruct (IH _ m E) as [Hle Hm].
    pose proof (digit_run_le s) as Hrun.
    rewrite length_skipn in Hle. split; [lia|].
    rewrite firstn_add. constructor; [| |exact Hm].
    + destruct s as [|a s]; [simpl in Hj; lia|].
      destruct j; [lia|discriminate].
    + apply digit_run_firstn. lia.
Qed.

(** Where a match starts, [match_here] finds one. *)
Lemma match_here_complete p w :
  Matches p w -> forall rest, exists n, match_here p (w ++ rest) = Some n.
Proof.
  induction 1 as [|c p w _ IH|d p w Hne Hd _ IH]; intros rest; simpl.
  - now exists 0%nat.
  - rewrite Ascii.eqb_refl. destruct (IH rest) as [n ->]. now exists (S n).
  - destruct (backtrack _ (digit_run ((d ++ w) ++ rest))) as [n|] eqn:E;
      [now exists n|].
    exfalso.
    assert (Hlen : (1 <= List.length d <= digit_run ((d ++ w) ++ rest))%nat).
    { split.
      - destruct d; [contradiction|simpl; lia].
      - rewrite <- app_assoc. now apply digit_run_app_ge. }
    pose proof (backtrack_none _ _ E _ Hlen) as Hnone. simpl in Hnone.
    rewrite <- app_assoc, skipn_length_app in Hnone.
    destruct (IH rest) as [n Hn]. rewrite Hn in Hnone. discriminate.
Qed.

(** For a separated pattern no match from the same position is longer than
    the one [match_here] returns. *)
Lemma match_here_longest p w :
  Matches p w -> separated p = true ->
  forall rest n, match_here p (w ++ rest) = Some n -> (List.length w <= n)%nat.
Proof.
  induction 1 as [|c p w _ IH|d p w Hne Hd Hw IH]; intros Hsep rest n.
  - simpl. lia.
  - simpl in Hsep. apply andb_true_iff in Hsep as [_ Hsep].
    simpl. rewrite Ascii.eqb_refl.
    destruct (match_here p (w ++ rest)) as [m|] eqn:E; [|discriminate].
    intros [= <-]. specialize (IH Hsep rest m E). lia.
  - rewrite length_app. cbn [match_here].
    assert (Hd1 : exists k, List.length d = S k)
      by (destruct d; [contradiction|eexists; reflexivity]).
    destruct Hd1 as [k Hk].
    destruct (match_here_complete p w Hw rest) as [m Hm].
    inversion Hw as [Hp Hnil|c p' w' Hw' Hp Hcw|d' p' w' _ _ _ Hp Hdw]; subst.
    + (* the repetition ends the pattern *)
      simpl. simpl in Hm. injection Hm as <-.
      rewrite app_nil_r.
      pose proof (digit_run_app_ge d rest Hd) as Hrun.
      destruct (digit_run (d ++ rest)) as [|r] eqn:Er; [lia|].
      simpl. intros [= <-]. lia.
    + (* a literal follows, and it is no digit *)
      simpl in Hsep. apply andb_true_iff in Hsep as [Hc Hsep'].
      apply negb_true_iff in Hc.
      rewrite <- app_assoc. simpl app.
      rewrite (digit_run_app_stop d c (w' ++ rest) Hd Hc), Hk.
      rewrite (backtrack_first _ k (S k + m)).
      * intros [= <-].
        assert (Hsep2 : separated (Lit c :: p') = true)
          by (simpl; now rewrite Hc).
        specialize (IH Hsep2 rest m Hm). lia.
      * rewrite <- Hk, skipn_length_app.
        change (c :: w' ++ rest) with ((c :: w') ++ rest)%list.
        now rewrite Hm.
    + simpl in Hsep. discriminate.
Qed.

Lemma app_eq_length_inv {A : Type} (l1 l2 r1 r2 : list A) :
  (l1 ++ r1 = l2 ++ r2)%list -> List.length l1 = List.length l2 ->
  l1 = l2 /\ r1 = r2.
Proof.
  revert l2. induction l1 as [|a l1 IH]; intros [|b l2]; simpl;
    try discriminate; [auto|].
  intros [= -> H] [= Hlen]. destruct (IH l2 H Hlen) as [-> ->]. auto.
Qed.

(** [search] returns a match that no match precedes; what follows it in the
    text is kept for comparing lengths. *)
Lemma search_found p : forall s m,
  search p s = Some m ->
  exists pre post,
    s = (pre ++ m ++ post)%list /\ Matches p m
    /\ match_here p (m ++ post) = Some (List.length m)
    /\ forall pre' m' post',
         s = (pre' ++ m' ++ post')%list -> Matches p m' ->
         (List.length pre <= List.length pre')%nat.
Proof.
  induction s as [|c s IH]; intros m; simpl.
  - destruct (match_here p []) as [n|] eqn:E; [|discriminate].
    intros [= <-]. destruct (match_here_sound p [] n E) as [Hle Hm].
    exists [], []. rewrite firstn_nil in *. simpl in Hle.
    assert (n = 0%nat) by lia. subst n.
    repeat split; [exact Hm|exact E|simpl; lia].
  - destruct (match_here p (c :: s)) as [n|] eqn:E.
    + intros [= <-]. destruct (match_here_sound p _ n E) as [Hle Hm].
      exists [], (skipn n (c :: s)).
      rewrite app_nil_l, firstn_skipn, length_firstn, Nat.min_l by exact Hle.
      repeat split; [exact Hm|exact E|simpl; lia].
    + intros H. destruct (IH m H) as [pre [post [Hs [Hm [Hhere Hleft]]]]].
      exists (c :: pre), post. subst s.
      repeat split; [exact Hm|exact Hhere|].
      intros [|c' pre'] m' post' Heq Hm'.
      * exfalso. simpl in Heq.
        destruct (match_here_complete p m' Hm' post') as [n Hn].
        rewrite <- Heq in Hn. congruence.
      * simpl in Heq. injection Heq as _ Heq.
        specialize (Hleft pre' m' post' Heq Hm'). simpl. lia.
Qed.

Lemma search_none p : forall s,
  search p s = None -> ~ has_match p s.
Proof.
  induction s as [|c s IH]; simpl.
  - destruct (match_here p []) eqn:E; [discriminate|].
    intros _ [pre [m [post [Heq Hm]]]].
    destruct pre; [|discriminate]. simpl in Heq.
    destruct (match_here_complete p m Hm post) as [n Hn].
    rewrite <- Heq in Hn. congruence.
  - destruct (match_here p (c :: s)) eqn:E; [discriminate|].
    intros H [[|c' pre] [m [post [Heq Hm]]]].
    + simpl in Heq. destruct (match_here_complete p m Hm post) as [n Hn].
      rewrite <- Heq in Hn. congruence.
    + simpl in Heq. injection Heq as _ Heq.
      apply (IH H). now exists pre, m, post.
Qed.

(** For a separated pattern [search] returns the first match. *)
Lemma search_first_match p s m :
  separated p = true -> search p s = Some m ->
  exists pre post, first_match p s pre m post.
Proof.
  intros Hsep H.
  destruct (search_found p s m H) as [pre [post [Hs [Hm [Hhere Hleft]]]]].
  exists pre, post. split; [exact Hs|]. split; [exact Hm|].
  intros pre' m' post' Heq Hm'. split; [now apply (Hleft pre' m' post')|].
  intros Hlen. rewrite Hs in Heq.
  destruct (app_eq_length_inv pre pre' _ _ Heq (eq_sym Hlen)) as [_ Hrest].
  rewrite Hrest in Hhere.
  exact (match_here_longest p m' Hm' Hsep post' _ Hhere).
Qed.

(** ** Stripping does not move the match *)

Lemma isspace_not_isdigit c : isspace c = true -> isdigit c = false.
Proof.
  destruct c as [[] [] [] [] [] [] [] []]; vm_compute; congruence.
Qed.

Lemma digit_run_app_other s c t :
  isdigit c = false -> digit_run (s ++ c :: t) = digit_run s.
Proof.
  intros Hc. induction s as [|a s IH]; simpl; [now rewrite Hc|].
  destruct (isdigit a); [now rewrite IH|reflexivity].
Qed.

Lemma match_here_nil p : p <> [] -> match_here p [] = None.
Proof. destruct p as [|[c|] p]; [contradiction| |]; reflexivity. Qed.

(** White space after the text changes nothing for a pattern whose literals
    are not white space. *)
Lemma match_here_app_space p c t :
  forallb (fun i => match i with
                    | Lit c => negb (isspace c)
                    | DigitsPlus => true
                    end) p = true ->
  isspace c = true ->
  forall s, match_here p (s ++ c :: t) = match_here p s.
Proof.
  intros Hp Hc. induction p as [|[c0|] p IH]; intros s.
  - reflexivity.
  - simpl in Hp. apply andb_true_iff in Hp as [Hc0 Hp].
    apply negb_true_iff in Hc0. specialize (IH Hp).
    destruct s as [|a s]; simpl.
    + destruct (Ascii.eqb_spec c c0) as [->|_]; [congruence|reflexivity].
    + now rewrite IH.
  - simpl in Hp. specialize (IH Hp). cbn [match_here].
    rewrite (digit_run_app_other s c t (isspace_not_isdigit c Hc)).
    apply backtrack_ext. intros j Hj.
    pose proof (digit_run_le s) as Hle.
    rewrite skipn_app.
    replace (j - List.length s)%nat with 0%nat by lia.
    simpl skipn at 2. now rewrite IH.
Qed.

Lemma visible_literals p :
  visible p = true ->
  p <> []
  /\ forallb (fun i => match i with
                       | Lit c => negb (isspace c)
                       | DigitsPlus => true
                       end) p = true.
Proof. destruct p; [discriminate|]. intros H. split; [discriminate|exact H]. Qed.

Lemma match_here_space_head p c t :
  visible p = true -> isspace c = true -> match_here p (c :: t) = None.
Proof.
  intros Hv Hc. destruct (visible_literals p Hv) as [Hne Hp].
  rewrite <- (match_here_nil p Hne).
  exact (match_here_app_space p c t Hp Hc []).
Qed.

Lemma search_spaces p ws :
  visible p = true -> forallb isspace ws = true -> search p ws = None.
Proof.
  intros Hv. induction ws as [|c ws IH]; simpl; intros Hws.
  - now rewrite (match_here_nil p (proj1 (visible_literals p Hv))).
  - apply andb_true_iff in Hws as [Hc Hws].
    rewrite (match_here_space_head p c ws Hv Hc). now apply IH.
Qed.

Lemma search_app_spaces p ws :
  visible p = true -> forallb isspace ws = true ->
  forall s, search p (s ++ ws) = search p s.
Proof.
  intros Hv Hws. destruct ws as [|c ws]; [intros s; now rewrite app_nil_r|].
  pose proof Hws as Hall. simpl in Hws. apply andb_true_iff in Hws as [Hc _].
  destruct (visible_literals p Hv) as [Hne Hp].
  induction s as [|a s IH].
  - rewrite app_nil_l, (search_spaces p (c :: ws) Hv Hall). simpl.
    now rewrite (match_here_nil p Hne).
  - cbn [app search].
    change (a :: s ++ c :: ws) with ((a :: s) ++ c :: ws)%list.
    rewrite (match_here_app_space p c ws Hp Hc (a :: s)).
    destruct (match_here p (a :: s)) as [n|] eqn:E; [|exact IH].
    destruct (match_here_sound p _ n E) as [Hle _].
    rewrite firstn_app.
    replace (n - List.length (a :: s))%nat with 0%nat by lia.
    now rewrite firstn_O, app_nil_r.
Qed.

Lemma search_lstrip p s :
  visible p = true -> search p (lstrip s) = search p s.
Proof.
  intros Hv. induction s as [|c s IH]; [reflexivity|].
  cbn [lstrip]. destruct (isspace c) eqn:Hc; [|reflexivity].
  rewrite IH. cbn [search]. now rewrite (match_here_space_head p c s Hv Hc).
Qed.

Lemma lstrip_split s :
  exists ws, s = (ws ++ lstrip s)%list /\ forallb isspace ws = true.
Proof.
  induction s as [|c s [ws [Hs Hws]]]; [now exists []|].
  cbn [lstrip]. destruct (isspace c) eqn:Hc; [|now exists []].
  exists (c :: ws). simpl. rewrite Hc, Hws. split; [now f_equal|reflexivity].
Qed.

Lemma rstrip_split s :
  exists ws, s = (rstrip s ++ ws)%list /\ forallb isspace ws = true.
Proof.
  destruct (lstrip_split (rev s)) as [ws [Hs Hws]].
  exists (rev ws). split.
  - unfold rstrip. rewrite <- rev_app_distr, <- Hs. now rewrite rev_involutive.
  - rewrite forallb_forall in *. intros x Hx. apply Hws. now apply in_rev.
Qed.

Lemma search_strip p s :
  visible p = true -> search p (strip s) = search p s.
Proof.
  intros Hv. unfold strip.
  destruct (rstrip_split (lstrip s)) as [ws [Hs Hws]].
  rewrite <- (search_lstrip p s Hv). rewrite Hs at 2.
  now rewrite (search_app_spaces p ws Hv Hws).
Qed.

(* ================================================================== *)
(** * Further properties of the program *)

(** ** Startup *)

(** X1.  When the file cannot be resolved at startup, whatever the cause (no
    file, a file that cannot be read, no address with prefix length in it, or
    one that the parser refuses), [Scanner()] writes the one line
    "[ERROR] ..." with the text of the exception and the process ends with
    status 1: no window, no sweep and no other line. *)
Theorem startup_failure_is_fatal :
  forall (ip_file : FileSystem) (e : exn),
    load_network_from_file ip_file = Raise e ->
    startup ip_file = Exited 1 [LogERROR (str_exn e)]
    /\ init ip_file = (Raise (SystemExit 1), [LogERROR (str_exn e)]).
Proof.
  intros ip_file e Hload.
  assert (Hinit : init ip_file = (Raise (SystemExit 1), [LogERROR (str_exn e)])).
  { unfold init. cbn [bind].
    now rewrite (safe_load_ip_fail _ ip_file e Hload). }
  split; [|exact Hinit]. unfold startup. now rewrite Hinit.
Qed.

Lemma startup_failure_is_fatal_witness :
  startup None
  = Exited 1 [LogERROR "[Errno 2] No such file or directory: 'ip.txt'"]
  /\ init None
     = (Raise (SystemExit 1),
        [LogERROR "[Errno 2] No such file or directory: 'ip.txt'"]).
Proof.
  apply (startup_failure_is_fatal None
           (OSError "[Errno 2] No such file or directory: 'ip.txt'")).
  reflexivity.
Defined.

(** X2.  When the file resolves, [Scanner()] leaves a window that holds the
    subnet and the file's modification time, shows the status line for it,
    has an empty baseline and an empty table, runs the scan timer at the
    interval of the subnet's address count and the watch timer at 1000 ms,
    and has already started the first sweep, on that network, without
    waiting for a tick; the console shows the [INIT] line and, for a large
    subnet, the advisory. *)
Theorem startup_starts_first_sweep :
  forall (f : File) (n a : string) (h : Z),
    load_network_from_file (Some f) = Ret (n, a, h) ->
    exists w,
      startup (Some f) = Alive (mkProcess w [n] [] (LogINIT n :: warning h))
      /\ (network w, my_ip w, hosts w) = (n, a, h)
      /\ last_ip_mtime w = Some (st_mtime f)
      /\ status_label w = "Network: " ++ n ++ " | Your IP: " ++ a ++ " | Auto scan"
      /\ devices w = [] /\ table w = []
      /\ scanning w = true /\ thread w = Some n
      /\ timer w = Some (get_scan_interval w)
      /\ watch_timer w = Some 1000%Z.
Proof.
  intros f n a h Hload. unfold startup, init. cbn [bind].
  rewrite (safe_load_ip_ok _ f _ Hload). cbn.
  rewrite app_nil_r. eexists. split; [reflexivity|]. repeat split.
Qed.

Lemma startup_starts_first_sweep_witness :
  exists w,
    startup Scenario.file16
    = Alive (mkProcess w ["172.16.0.0/16"] []
               (LogINIT "172.16.0.0/16" :: warning 65536))
    /\ (network w, my_ip w, hosts w) = ("172.16.0.0/16", "172.16.5.9", 65536%Z)
    /\ last_ip_mtime w = Some 200%Z
    /\ status_label w
       = "Network: " ++ "172.16.0.0/16" ++ " | Your IP: " ++ "172.16.5.9" ++ " | Auto scan"
    /\ devices w = [] /\ table w = []
    /\ scanning w = true /\ thread w = Some "172.16.0.0/16"
    /\ timer w = Some (get_scan_interval w)
    /\ watch_timer w = Some 1000%Z.
Proof.
  apply (startup_starts_first_sweep (mkFile 200 (Some "172.16.5.9/16"))
           "172.16.0.0/16" "172.16.5.9" 65536%Z).
  vm_compute. reflexivity.
Defined.

(** ** The watch timer *)

Lemma mtime_differs_same m : mtime_differs m (Some m) = false.
Proof. simpl. now rewrite Z.eqb_refl. Qed.

(** X3.  A watch tick does nothing at all, and writes nothing, when ip.txt
    is missing or when its modification time is the one remembered; the
    text of the file is not looked at then, so a file that has become
    unreadable or invalid goes unnoticed as long as its time stands. *)
Theorem watch_tick_without_change :
  forall (self : Scanner) (ip_file : FileSystem),
    (ip_file = None
     \/ exists f, ip_file = Some f /\ last_ip_mtime self = Some (st_mtime f)) ->
    check_ip_file self ip_file = (Ret self, []).
Proof.
  intros self ip_file [->|[f [-> Hm]]].
  - apply check_ip_file_missing.
  - apply check_ip_file_same. rewrite Hm. apply mtime_differs_same.
Qed.

Lemma watch_tick_without_change_witness :
  check_ip_file (Sample.window Sample.both) (Some (mkFile 100 None))
  = (Ret (Sample.window Sample.both), []).
Proof.
  apply (watch_tick_without_change (Sample.window Sample.both)
           (Some (mkFile 100 None))).
  right. exists (mkFile 100 None). split; reflexivity.
Defined.

(** X4.  A reload happens once per modification: right after a watch tick
    that returned, a second tick on the same file changes nothing and writes
    nothing. *)
Theorem watch_tick_twice :
  forall (self w : Scanner) (f : File) (out : list LogMsg),
    check_ip_file self (Some f) = (Ret w, out) ->
    check_ip_file w (Some f) = (Ret w, []).
Proof.
  intros self w f out H.
  destruct (mtime_differs (st_mtime f) (last_ip_mtime self)) eqn:Hd.
  - destruct (load_network_from_file (Some f)) as [[[n a] h]|e] eqn:Hload.
    + rewrite (check_ip_file_reload self f _ Hd Hload) in H.
      injection H as <- _. apply check_ip_file_same. apply mtime_differs_same.
    + rewrite (check_ip_file_reload_fails self f e Hd Hload) in H. discriminate.
  - rewrite (check_ip_file_same self f Hd) in H. injection H as <- _.
    now apply check_ip_file_same.
Qed.

Lemma watch_tick_twice_witness :
  check_ip_file
    (update_status
       (set_subnet ("172.16.0.0/16", "172.16.5.9", 65536%Z)
          (set_last_ip_mtime (Some 200%Z) (Sample.window Sample.both))))
    Scenario.file16
  = (Ret (update_status
            (set_subnet ("172.16.0.0/16", "172.16.5.9", 65536%Z)
               (set_last_ip_mtime (Some 200%Z) (Sample.window Sample.both)))),
     []).
Proof.
  apply (watch_tick_twice (Sample.window Sample.both) _
           (mkFile 200 (Some "172.16.5.9/16"))
           [LogINFO; LogINIT "172.16.0.0/16"; LogWARN 65536]).
  vm_compute. reflexivity.
Defined.

(** What a watch tick that returns leaves alone. *)
Lemma check_ip_file_frame self ip_file w out :
  check_ip_file self ip_file = (Ret w, out) ->
  devices w = devices self /\ table w = table self
  /\ scanning w = scanning self /\ thread w = thread self
  /\ timer w = timer self /\ watch_timer w = watch_timer self.
Proof.
  destruct ip_file as [f|]; [|intros [= <- _]; repeat split].
  destruct (mtime_differs (st_mtime f) (last_ip_mtime self)) eqn:Hd.
  - destruct (load_network_from_file (Some f)) as [[[n a] h]|e] eqn:Hload.
    + rewrite (check_ip_file_reload self f _ Hd Hload).
      intros [= <- _]. repeat split.
    + rewrite (check_ip_file_reload_fails self f e Hd Hload). discriminate.
  - rewrite (check_ip_file_same self f Hd). intros [= <- _]. repeat split.
Qed.

(** ** The event loop *)

Section EventLoop.

Variable get_manuf : string -> option string.

(** X5.  [check_ip_file] raises in one case only: the modification time has
    changed and the file does not resolve.  What leaves it then is
    [SystemExit(1)], after the [INFO] and the [ERROR] line; in every other
    case (no file, an unchanged time, a file that resolves) it returns, the
    error of [stat] being swallowed. *)
Theorem check_ip_file_raises_only_on_failed_reload :
  forall (self : Scanner) (ip_file : FileSystem) (e : exn) (out : list LogMsg),
    check_ip_file self ip_file = (Raise e, out) <->
    exists f e0,
      ip_file = Some f
      /\ mtime_differs (st_mtime f) (last_ip_mtime self) = true
      /\ load_network_from_file (Some f) = Raise e0
      /\ e = SystemExit 1
      /\ out = [LogINFO; LogERROR (str_exn e0)].
Proof.
  intros self ip_file e out. split.
  - destruct ip_file as [f|]; [|rewrite check_ip_file_missing; discriminate].
    destruct (mtime_differs (st_mtime f) (last_ip_mtime self)) eqn:Hd.
    + destruct (load_network_from_file (Some f)) as [[[n a] h]|e0] eqn:Hload.
      * rewrite (check_ip_file_reload self f _ Hd Hload). discriminate.
      * rewrite (check_ip_file_reload_fails self f e0 Hd Hload).
        intros [= <- <-]. exists f, e0. repeat split; assumption.
    + rewrite (check_ip_file_same self f Hd). discriminate.
  - intros [f [e0 [-> [Hd [Hload [-> ->]]]]]].
    exact (check_ip_file_reload_fails self f e0 Hd Hload).
Qed.

(** X6.  A watch tick, reload or not, leaves the sweeps in flight, the slot
    calls that wait, the baseline, the table and the scanning flag as they
    are: a sweep started on the old network is not cancelled, and its result
    is still delivered after the reload. *)
Theorem watch_tick_keeps_sweeps :
  forall (ip_file : FileSystem) (p p' : Process),
    handle get_manuf (WatchTick ip_file) p = Alive p' ->
    sweeps p' = sweeps p /\ pending p' = pending p
    /\ devices (win p') = devices (win p) /\ table (win p') = table (win p)
    /\ scanning (win p') = scanning (win p).
Proof.
  intros ip_file p p'. simpl.
  destruct (check_ip_file (win p) ip_file) as [[w|e] out] eqn:Hc; [|discriminate].
  intros [= <-]. simpl.
  destruct (check_ip_file_frame _ _ _ _ Hc) as [Hd [Ht [Hs _]]].
  repeat split; assumption.
Qed.

Lemma fold_advance_exited evs status out :
  fold_left (advance get_manuf) evs (Exited status out) = Exited status out.
Proof. induction evs as [|ev evs IH]; simpl; [reflexivity|exact IH]. Qed.

(** A property that every event keeps holds in every state reached. *)
Lemma fold_advance_invariant (I : Process -> Prop) :
  (forall ev p p', I p -> handle get_manuf ev p = Alive p' -> I p') ->
  forall evs p0 p,
    I p0 -> fold_left (advance get_manuf) evs (Alive p0) = Alive p -> I p.
Proof.
  intros Hstep. induction evs as [|ev evs IH]; simpl; intros p0 p H0 Hrun.
  - now injection Hrun as <-.
  - destruct (handle get_manuf ev p0) as [p1|c out] eqn:Hev.
    + apply (IH p1 p); [exact (Hstep ev p0 p1 H0 Hev)|exact Hrun].
    + rewrite fold_advance_exited in Hrun. discriminate.
Qed.

Lemma execute_alive ip_file evs p :
  execute get_manuf ip_file evs = Alive p ->
  exists p0, startup ip_file = Alive p0
             /\ fold_left (advance get_manuf) evs (Alive p0) = Alive p.
Proof.
  unfold execute. destruct (startup ip_file) as [p0|c out].
  - intros H. now exists p0.
  - rewrite fold_advance_exited. discriminate.
Qed.

Lemma update_frame self new_devices :
  timer (fst (update self new_devices)) = timer self
  /\ watch_timer (fst (update self new_devices)) = watch_timer self
  /\ scanning (fst (update self new_devices)) = scanning self
  /\ network (fst (update self new_devices)) = network self
  /\ my_ip (fst (update self new_devices)) = my_ip self
  /\ hosts (fst (update self new_devices)) = hosts self.
Proof. repeat split. Qed.

Lemma handle_keeps_timers ev p p' :
  handle get_manuf ev p = Alive p' ->
  timer (win p') = timer (win p) /\ watch_timer (win p') = watch_timer (win p).
Proof.
  destruct ev as [|ip_file|i answers|i]; simpl.
  - unfold start_scan. destruct (scanning (win p)); intros [= <-]; split; reflexivity.
  - destruct (check_ip_file (win p) ip_file) as [[w|e] out] eqn:Hc; [|discriminate].
    intros [= <-]. simpl.
    destruct (check_ip_file_frame _ _ _ _ Hc) as [_ [_ [_ [_ [Ht Hw]]]]].
    split; assumption.
  - destruct (nth_error (sweeps p) i); intros [= <-]; split; reflexivity.
  - destruct (nth_error (pending p) i) as [[d|]|]; intros [= <-]; split; reflexivity.
Qed.

(** X7.  The two timers are started once and never again: in every state the
    process reaches, the scan timer still runs at the interval computed for
    the subnet found at startup, whatever subnets were loaded since, and the
    watch timer runs at 1000 ms. *)
Theorem timers_keep_startup_interval :
  forall (ip_file : FileSystem) (evs : list Event) (p : Process),
    execute get_manuf ip_file evs = Alive p ->
    exists p0,
      startup ip_file = Alive p0
      /\ timer (win p) = Some (get_scan_interval (win p0))
      /\ watch_timer (win p) = Some 1000%Z.
Proof.
  intros ip_file evs p Hrun.
  destruct (execute_alive _ _ _ Hrun) as [p0 [Hstart Hfold]].
  exists p0. split; [exact Hstart|].
  assert (H0 : timer (win p0) = Some (get_scan_interval (win p0))
               /\ watch_timer (win p0) = Some 1000%Z).
  { destruct ip_file as [f|]; [|discriminate].
    destruct (load_network_from_file (Some f)) as [[[n a] h]|e] eqn:Hload.
    - destruct (startup_ok f n a h Hload) as [w [Hs [_ [_ [_ Ht]]]]].
      rewrite Hs in Hstart. injection Hstart as <-. split; [exact Ht|].
      unfold startup, init in Hs. cbn [bind] in Hs.
      rewrite (safe_load_ip_ok _ f _ Hload) in Hs. cbn in Hs.
      injection Hs as <-. reflexivity.
    - unfold startup, init in Hstart. cbn [bind] in Hstart.
      rewrite (safe_load_ip_fail _ _ e Hload) in Hstart. discriminate. }
  apply (fold_advance_invariant
           (fun q => timer (win q) = Some (get_scan_interval (win p0))
                     /\ watch_timer (win q) = Some 1000%Z))
    with (evs := evs) (p0 := p0); [|exact H0|exact Hfold].
  intros ev q q' [Ht Hw] Hev.
  destruct (handle_keeps_timers ev q q' Hev) as [Ht' Hw'].
  split; congruence.
Qed.

End EventLoop.

Lemma check_ip_file_raises_only_on_failed_reload_witness :
  check_ip_file (Sample.window Sample.both) Scenario.garbled
  = (Raise (SystemExit 1), [LogINFO; LogERROR "No valid IP/CIDR found in ip.txt"]).
Proof.
  apply (proj2 (check_ip_file_raises_only_on_failed_reload
                  (Sample.window Sample.both) Scenario.garbled (SystemExit 1)
                  [LogINFO; LogERROR "No valid IP/CIDR found in ip.txt"])).
  exists (mkFile 200 (Some "10.0.0.5 /24")),
         (ValueError "No valid IP/CIDR found in ip.txt").
  repeat split; vm_compute; reflexivity.
Defined.

Lemma watch_tick_keeps_sweeps_witness :
  exists p',
    handle Sample.vendors (WatchTick Scenario.file16) (Scenario.after []) = Alive p'
    /\ sweeps p' = ["10.0.0.0/24"] /\ network (win p') = "172.16.0.0/16".
Proof.
  eexists. split; [vm_compute; reflexivity|].
  split; [|reflexivity].
  refine (proj1 (watch_tick_keeps_sweeps Sample.vendors Scenario.file16 (Scenario.after []) _ _)).
  vm_compute. reflexivity.
Defined.

Lemma timers_keep_startup_interval_witness :
  exists p0,
    startup Scenario.file24 = Alive p0
    /\ timer (win (Scenario.after [WatchTick Scenario.file16; ScanTick]))
       = Some (get_scan_interval (win p0))
    /\ watch_timer (win (Scenario.after [WatchTick Scenario.file16; ScanTick]))
       = Some 1000%Z.
Proof.
  apply (timers_keep_startup_interval Sample.vendors Scenario.file24
           [WatchTick Scenario.file16; ScanTick]).
  vm_compute. reflexivity.
Defined.

(** ** Snapshots in the running process *)

Lemma In_remove_nth {A : Type} (x : A) (l : list A) : forall i,
  In x (remove_nth i l) -> In x l.
Proof.
  unfold remove_nth. induction l as [|a l IH]; intros [|i]; simpl;
    try tauto.
  intros [H|H]; [now left|right; exact (IH i H)].
Qed.

Section SnapshotInvariant.

Variable get_manuf : string -> option string.

Lemma run_snapshot_ok answers : snapshot_ok (run get_manuf answers).
Proof.
  apply snapshot_ok_fold. split; [constructor|intros ? ? []].
Qed.

Lemma handle_snapshots_ok ev p p' :
  snapshots_ok p -> handle get_manuf ev p = Alive p' -> snapshots_ok p'.
Proof.
  unfold snapshots_ok. intros [Hb Hq].
  destruct ev as [|ip_file|i answers|i]; simpl.
  - unfold start_scan. destruct (scanning (win p)); intros [= <-]; simpl; auto.
  - destruct (check_ip_file (win p) ip_file) as [[w|e] out] eqn:Hc; [|discriminate].
    intros [= <-]. simpl.
    destruct (check_ip_file_frame _ _ _ _ Hc) as [Hd _]. rewrite Hd. auto.
  - destruct (nth_error (sweeps p) i); intros [= <-]; simpl; [|auto].
    split; [exact Hb|]. intros d Hin. apply in_app_iff in Hin as [Hin|Hin].
    + now apply Hq.
    + destruct Hin as [[= <-]|[Hin|[]]]; [apply run_snapshot_ok|discriminate].
  - destruct (nth_error (pending p) i) as [[d|]|] eqn:Hn; intros [= <-]; simpl.
    + split.
      * apply Hq. exact (nth_error_In _ _ Hn).
      * intros d' Hin. apply Hq. exact (In_remove_nth _ _ _ Hin).
    + split; [exact Hb|].
      intros d' Hin. apply Hq. exact (In_remove_nth _ _ _ Hin).
    + auto.
Qed.

(** X8.  In every state the process reaches, the baseline and every sweep
    result waiting for delivery are proper snapshots: no address twice and
    each entry filed under its own address.  So when such a result is
    delivered, [update] gives every address at most one tag, the one of the
    diff rule. *)
Theorem reachable_snapshots_are_well_formed :
  forall (ip_file : FileSystem) (evs : list Event) (p : Process),
    execute get_manuf ip_file evs = Alive p ->
    snapshot_ok (devices (win p))
    /\ forall d, In (CallUpdate d) (pending p) ->
         snapshot_ok d
         /\ forall a,
              tags_of a (snd (update (win p) d))
              = match diff_rule (devices (win p)) d (my_ip (win p)) a with
                | Some t => [t]
                | None => []
                end.
Proof.
  intros ip_file evs p Hrun.
  destruct (execute_alive get_manuf _ _ _ Hrun) as [p0 [Hstart Hfold]].
  assert (H0 : snapshots_ok p0).
  { destruct ip_file as [f|]; [|discriminate].
    destruct (load_network_from_file (Some f)) as [[[n a] h]|e] eqn:Hload.
    - destruct (startup_ok f n a h Hload) as [w [Hs [_ [_ [Hd _]]]]].
      rewrite Hs in Hstart. injection Hstart as <-.
      split; simpl; [|intros ? []].
      rewrite Hd. split; [constructor|intros ? ? []].
    - unfold startup, init in Hstart. cbn [bind] in Hstart.
      rewrite (safe_load_ip_fail _ _ e Hload) in Hstart. discriminate. }
  destruct (fold_advance_invariant get_manuf snapshots_ok
              handle_snapshots_ok evs p0 p H0 Hfold) as [Hb Hq].
  split; [exact Hb|]. intros d Hin. split; [now apply Hq|].
  intros a. apply tags_of_update; [apply Hb|apply (Hq d Hin)].
Qed.

(** X9.  One scan cycle, from a process with a single sweep in flight and
    nothing waiting: when the sweep ends and its two slot calls are
    delivered, in either order, the process is idle again with the sweep's
    dictionary as baseline, the diff appended to the console and the
    scanning flag cleared, so that the next scan tick starts a sweep on the
    network the window then holds. *)
Theorem scan_cycle_completes :
  forall (p : Process) (n : string) (answers : list Reply),
    sweeps p = [n] -> pending p = [] ->
    let d := run get_manuf answers in
    let p' := mkProcess (on_finished (fst (update (win p) d))) [] []
                (console p ++ snd (update (win p) d))%list in
    fold_left (advance get_manuf) [SweepDone 0 answers; Deliver 0; Deliver 0]
      (Alive p) = Alive p'
    /\ fold_left (advance get_manuf) [SweepDone 0 answers; Deliver 1; Deliver 0]
         (Alive p) = Alive p'
    /\ devices (win p') = d /\ scanning (win p') = false
    /\ exists w, handle get_manuf ScanTick p'
                 = Alive (mkProcess w [network (win p)] [] (console p'))
                 /\ scanning w = true.
Proof.
  intros [w s q c] n answers Hs Hq d p'. simpl in Hs, Hq. subst s q.
  repeat split.
  eexists. split; reflexivity.
Qed.

End SnapshotInvariant.

Lemma reachable_snapshots_are_well_formed_witness :
  snapshot_ok (devices (win (Scenario.after [SweepDone 0 Sample.replies])))
  /\ forall d, In (CallUpdate d) (pending (Scenario.after [SweepDone 0 Sample.replies])) ->
       snapshot_ok d
       /\ forall a,
            tags_of a (snd (update (win (Scenario.after [SweepDone 0 Sample.replies])) d))
            = match diff_rule (devices (win (Scenario.after [SweepDone 0 Sample.replies])))
                      d (my_ip (win (Scenario.after [SweepDone 0 Sample.replies]))) a with
              | Some t => [t]
              | None => []
              end.
Proof.
  apply (reachable_snapshots_are_well_formed Sample.vendors Scenario.file24
           [SweepDone 0 Sample.replies]).
  vm_compute. reflexivity.
Defined.

Lemma scan_cycle_completes_witness :
  devices (win (mkProcess
                  (on_finished (fst (update (win (Scenario.after []))
                                       (run Sample.vendors Sample.replies))))
                  [] []
                  (console (Scenario.after [])
                   ++ snd (update (win (Scenario.after []))
                             (run Sample.vendors Sample.replies)))%list))
  = run Sample.vendors Sample.replies.
Proof.
  refine (proj1 (proj2 (proj2
            (scan_cycle_completes Sample.vendors (Scenario.after [])
               "10.0.0.0/24" Sample.replies _ _)))); reflexivity.
Defined.

(** ** More on the diff *)

Lemma classification_update_log_line self kv :
  classification (update_log_line self kv) = Some (fresh_tag self (fst kv), fst kv).
Proof.
  destruct kv as [k d]. unfold update_log_line, fresh_tag. simpl.
  destruct (String.eqb k (my_ip self)); [reflexivity|].
  destruct (negb (Dict.mem k (devices self))); reflexivity.
Qed.

Lemma classified_second_loop (fresh baseline : Dict.dict Device) :
  classified (flat_map (update_log_off fresh) baseline)
  = map (fun k => Some (ABSENT, k))
        (filter (fun k => negb (Dict.mem k fresh)) (Dict.keys baseline)).
Proof.
  unfold classified. induction baseline as [|[k d] baseline IH]; [reflexivity|].
  cbn [flat_map Dict.keys map filter fst]. rewrite map_app.
  unfold Dict.keys in IH. rewrite IH.
  unfold update_log_off. cbn [fst].
  destruct (negb (Dict.mem k fresh)); reflexivity.
Qed.

Lemma update_console_order_aux (self : Scanner) (fresh : Dict.dict Device) :
  classified (snd (update self fresh))
  = (map (fun k => Some (fresh_tag self k, k)) (Dict.keys fresh)
     ++ map (fun k => Some (ABSENT, k))
          (filter (fun k => negb (Dict.mem k fresh)) (Dict.keys (devices self))))%list
  /\ map ip_item (table (fst (update self fresh)))
     = map (fun kv => ip (snd kv)) fresh.
Proof.
  split.
  - unfold update. cbn [snd]. unfold classified at 1. rewrite map_app.
    f_equal.
    + unfold Dict.keys. rewrite !map_map. apply map_ext.
      intros kv. apply classification_update_log_line.
    + apply classified_second_loop.
  - unfold update. cbn [fst table set_devices set_table].
    rewrite map_map. reflexivity.
Qed.

(** X10.  The console of one [update] is ordered: first one line per entry of
    the fresh dictionary, in its insertion order, tagged SELF, NEW or
    PRESENT; then one [OFF] line per baseline address missing from the fresh
    dictionary, in the baseline's order.  The table rows follow the fresh
    dictionary's order too. *)
Theorem update_console_order :
  forall (self : Scanner) (fresh : Dict.dict Device),
    classified (snd (update self fresh))
    = (map (fun k => Some (fresh_tag self k, k)) (Dict.keys fresh)
       ++ map (fun k => Some (ABSENT, k))
            (filter (fun k => negb (Dict.mem k fresh)) (Dict.keys (devices self))))%list
    /\ map ip_item (table (fst (update self fresh)))
       = map (fun kv => ip (snd kv)) fresh.
Proof. exact update_console_order_aux. Qed.

Lemma mem_of_In (d : Dict.dict Device) kv : In kv d -> Dict.mem (fst kv) d = true.
Proof.
  intros Hin. apply mem_true_iff. unfold Dict.keys. now apply in_map.
Qed.

Lemma second_loop_same (d : Dict.dict Device) :
  flat_map (update_log_off d) d = [].
Proof.
  assert (H : forall l, (forall kv, In kv l -> In kv d) ->
                        flat_map (update_log_off d) l = []).
  { induction l as [|kv l IH]; intros Hl; [reflexivity|].
    cbn [flat_map]. unfold update_log_off at 1.
    rewrite (mem_of_In d kv) by (apply Hl; now left). simpl.
    apply IH. intros kv' Hin. apply Hl. now right. }
  apply H. auto.
Qed.

(** X11.  When a sweep returns the very dictionary that is the baseline,
    [update] writes one line per entry, [ME] for the window's own address
    and [ON] for every other, and no [NEW] or [OFF] line at all. *)
Theorem update_same_result_twice :
  forall (self : Scanner) (d : Dict.dict Device),
    let again := update (fst (update self d)) d in
    snd again
    = map (fun kv => if String.eqb (fst kv) (my_ip self)
                     then LogME (fst kv) (mac (snd kv))
                     else LogON (fst kv) (mac (snd kv))) d
    /\ devices (fst again) = d
    /\ forall m, In m (snd again) ->
         exists a, classification m = Some (SELF, a)
                   \/ classification m = Some (PRESENT, a).
Proof.
  intros self d again.
  assert (Hout : snd again
                 = map (fun kv => if String.eqb (fst kv) (my_ip self)
                                  then LogME (fst kv) (mac (snd kv))
                                  else LogON (fst kv) (mac (snd kv))) d).
  { unfold again, update. cbn [fst snd devices set_devices set_table].
    rewrite second_loop_same, app_nil_r.
    apply map_ext_in. intros [k e] Hin.
    pose proof (mem_of_In d (k, e) Hin) as Hk. cbn [fst] in Hk.
    unfold update_log_line.
    change (my_ip (set_devices d (set_table (map (update_row self) d) self)))
      with (my_ip self).
    change (devices (set_devices d (set_table (map (update_row self) d) self)))
      with d.
    rewrite Hk. reflexivity. }
  split; [exact Hout|]. split; [reflexivity|].
  intros m Hm. rewrite Hout in Hm. apply in_map_iff in Hm as [[k e] [<- _]].
  exists k. cbn [fst snd]. destruct (String.eqb k (my_ip self)); auto.
Qed.

Lemma second_loop_empty (baseline : Dict.dict Device) :
  flat_map (update_log_off []) baseline = map LogOFF (Dict.keys baseline).
Proof.
  induction baseline as [|[k d] baseline IH]; [reflexivity|].
  cbn [flat_map Dict.keys map fst]. unfold Dict.keys in IH. now rewrite IH.
Qed.

(** X12.  Nothing is held back when a sweep finds nobody: [update] with an
    empty dictionary writes an [OFF] line for every address of the baseline,
    in order, and clears the table and the baseline.  The sweep after that
    starts from nothing: every address it finds is written as [ME] or [NEW],
    none as [ON], and there is no [OFF] line. *)
Theorem empty_sweep_clears_everything :
  forall (self : Scanner),
    let cleared := update self [] in
    snd cleared = map LogOFF (Dict.keys (devices self))
    /\ table (fst cleared) = [] /\ devices (fst cleared) = []
    /\ forall fresh : Dict.dict Device,
         classified (snd (update (fst cleared) fresh))
         = map (fun k => Some (if String.eqb k (my_ip self) then SELF else NEW, k))
               (Dict.keys fresh).
Proof.
  intros self cleared. split; [|split; [reflexivity|split; [reflexivity|]]].
  - unfold cleared, update. cbn [snd map app]. apply second_loop_empty.
  - intros fresh.
    destruct (update_console_order_aux (fst cleared) fresh) as [-> _].
    unfold cleared, update. cbn [fst devices set_devices set_table Dict.keys map filter].
    rewrite app_nil_r. apply map_ext. intros k.
    unfold fresh_tag.
    change (my_ip (set_devices [] (set_table [] self))) with (my_ip self).
    change (devices (set_devices [] (set_table [] self)))
      with (@nil (string * Device)).
    destruct (String.eqb k (my_ip self)); reflexivity.
Qed.

(** ** More on the sweep's dictionary *)

Lemma mem_set {V : Type} (k x : string) (v : V) (d : Dict.dict V) :
  Dict.mem k (Dict.set x v d) = Dict.mem k d || String.eqb x k.
Proof.
  induction d as [|[k0 v0] d IH]; [simpl; now rewrite orb_false_r|].
  cbn [Dict.set]. destruct (String.eqb k0 x) eqn:E.
  - rewrite !mem_cons. apply String.eqb_eq in E. subst k0.
    destruct (String.eqb x k), (Dict.mem k d); reflexivity.
  - rewrite !mem_cons, IH. now rewrite orb_assoc.
Qed.

Lemma filter_both {A : Type} (f g : A -> bool) (l : list A) :
  filter f (filter g l) = filter (fun x => g x && f x) l.
Proof.
  induction l as [|a l IH]; simpl; [reflexivity|].
  destruct (g a); simpl; [|exact IH]. destruct (f a); now rewrite IH.
Qed.

Lemma filter_everything {A : Type} (l : list A) : filter (fun _ => true) l = l.
Proof. induction l as [|a l IH]; simpl; [reflexivity|now rewrite IH]. Qed.

Lemma lower_char_idempotent c : lower_char (lower_char c) = lower_char c.
Proof. destruct c as [[] [] [] [] [] [] [] []]; vm_compute; reflexivity. Qed.

Lemma lower_idempotent s : lower (lower s) = lower s.
Proof.
  induction s as [|c s IH]; simpl; [reflexivity|].
  now rewrite lower_char_idempotent, IH.
Qed.

Lemma lower_char_not_upper c : in_range 65 90 (lower_char c) = false.
Proof. destruct c as [[] [] [] [] [] [] [] []]; vm_compute; reflexivity. Qed.

Lemma lower_has_no_upper s c :
  In c (list_ascii_of_string (lower s)) -> in_range 65 90 c = false.
Proof.
  induction s as [|a s IH]; simpl; [tauto|].
  intros [<-|H]; [apply lower_char_not_upper|now apply IH].
Qed.

Lemma or_unknown_not_empty x : or_unknown x <> EmptyString.
Proof. destruct x as [[|c s]|]; discriminate. Qed.

Section RunOrder.

Variable get_manuf : string -> option string.

Lemma keys_fold_order answers : forall d : Dict.dict Device,
  Dict.keys (fold_left (run_step get_manuf) answers d)
  = (Dict.keys d
     ++ filter (fun k => negb (Dict.mem k d))
          (first_occurrences (map psrc answers)))%list.
Proof.
  induction answers as [|r answers IH]; intros d; simpl.
  - now rewrite app_nil_r.
  - rewrite IH. unfold run_step at 1 2. rewrite keys_set, filter_both.
    assert (Hfilter :
      filter (fun k => negb (Dict.mem k (Dict.set (psrc r)
                {| ip := psrc r; mac := lower (hwsrc r);
                   vendor := or_unknown (get_manuf (lower (hwsrc r))) |} d)))
             (first_occurrences (map psrc answers))
      = filter (fun k => negb (String.eqb k (psrc r)) && negb (Dict.mem k d))
               (first_occurrences (map psrc answers))).
    { apply filter_ext. intros k. rewrite mem_set, negb_orb.
      rewrite (String.eqb_sym (psrc r) k). apply andb_comm. }
    rewrite Hfilter.
    destruct (Dict.mem (psrc r) d) eqn:E; simpl; [reflexivity|].
    now rewrite <- app_assoc.
Qed.

Lemma fold_entries answers : forall (d : Dict.dict Device) k e,
  In (k, e) (fold_left (run_step get_manuf) answers d) ->
  In (k, e) d \/ exists r, In r answers /\ k = psrc r /\ e = device_of get_manuf r.
Proof.
  induction answers as [|r answers IH]; simpl; intros d k e Hin; [now left|].
  destruct (IH _ _ _ Hin) as [Hd|[r' [Hr' Heq]]].
  - unfold run_step in Hd. apply In_set in Hd as [Hd|Hd]; [|now left].
    injection Hd as -> ->. right. exists r. repeat split. now left.
  - right. exists r'. split; [now right|exact Heq].
Qed.

(** X13.  The dictionary a sweep builds lists the addresses in the order in
    which they first replied (a later reply from a known address keeps the
    address in its place), so it never has more entries than there were
    replies. *)
Theorem run_keeps_first_reply_order :
  forall answers : list Reply,
    Dict.keys (run get_manuf answers) = first_occurrences (map psrc answers)
    /\ (List.length (run get_manuf answers) <= List.length answers)%nat.
Proof.
  intros answers.
  assert (Hk : Dict.keys (run get_manuf answers)
               = first_occurrences (map psrc answers)).
  { unfold run. rewrite keys_fold_order. simpl. apply filter_everything. }
  split; [exact Hk|].
  rewrite <- (length_map fst (run get_manuf answers)).
  change (map fst (run get_manuf answers)) with (Dict.keys (run get_manuf answers)).
  rewrite Hk, <- (length_map psrc answers).
  generalize (map psrc answers) as l.
  induction l as [|x l IH]; simpl; [lia|].
  pose proof (filter_length_le (fun k => negb (String.eqb k x)) (first_occurrences l)).
  lia.
Qed.

(** X14.  Every entry of the dictionary a sweep builds comes from one of the
    replies with that source address: its hardware identifier is that
    reply's in lower case, so it holds no capital A-Z and lowering it again
    changes nothing, and its vendor is what the table gave for it, never
    the empty string. *)
Theorem run_entries_come_from_replies :
  forall (answers : list Reply) (k : string) (e : Device),
    In (k, e) (run get_manuf answers) ->
    (exists r, In r answers /\ psrc r = k /\ e = device_of get_manuf r)
    /\ lower (mac e) = mac e
    /\ (forall c, In c (list_ascii_of_string (mac e)) -> in_range 65 90 c = false)
    /\ vendor e <> EmptyString.
Proof.
  intros answers k e Hin.
  destruct (fold_entries answers [] k e Hin) as [[]|[r [Hr [-> ->]]]].
  split; [now exists r|]. split; [|split].
  - apply lower_idempotent.
  - intros c. apply lower_has_no_upper.
  - apply or_unknown_not_empty.
Qed.

End RunOrder.

Lemma run_entries_come_from_replies_witness :
  (exists r, In r Sample.replies /\ psrc r = "10.0.0.5"
             /\ mkDevice "10.0.0.5" "aa:bb:cc:00:00:05" "Unknown"
                = device_of Sample.vendors r)
  /\ lower (mac (mkDevice "10.0.0.5" "aa:bb:cc:00:00:05" "Unknown"))
     = mac (mkDevice "10.0.0.5" "aa:bb:cc:00:00:05" "Unknown")
  /\ (forall c,
        In c (list_ascii_of_string
                (mac (mkDevice "10.0.0.5" "aa:bb:cc:00:00:05" "Unknown"))) ->
        in_range 65 90 c = false)
  /\ vendor (mkDevice "10.0.0.5" "aa:bb:cc:00:00:05" "Unknown") <> EmptyString.
Proof.
  apply (run_entries_come_from_replies Sample.vendors Sample.replies "10.0.0.5").
  vm_compute. right. left. reflexivity.
Defined.

(** ** More on ip.txt *)

Lemma list_ascii_of_string_app s1 s2 :
  list_ascii_of_string (s1 ++ s2)
  = (list_ascii_of_string s1 ++ list_ascii_of_string s2)%list.
Proof. induction s1 as [|c s1 IH]; simpl; [reflexivity|now rewrite IH]. Qed.

Lemma search_spaces_app p ws s :
  visible p = true -> forallb isspace ws = true ->
  search p (ws ++ s) = search p s.
Proof.
  intros Hv. induction ws as [|c ws IH]; intros Hws; [reflexivity|].
  simpl in Hws. apply andb_true_iff in Hws as [Hc Hws].
  cbn [app search]. rewrite (match_here_space_head p c (ws ++ s) Hv Hc).
  now apply IH.
Qed.

(** X15.  White space before and after the text of ip.txt does not matter:
    with any run of white-space characters put in front of the text and any
    run put behind it, [load_network_from_file] returns, or raises, exactly
    what it does for the text alone. *)
Theorem load_network_ignores_outer_space :
  forall (mtime : Z) (before text after : string),
    forallb isspace (list_ascii_of_string before) = true ->
    forallb isspace (list_ascii_of_string after) = true ->
    load_network_from_file (Some (mkFile mtime (Some (before ++ text ++ after))))
    = load_network_from_file (Some (mkFile mtime (Some text))).
Proof.
  intros mtime before text after Hb Ha.
  unfold load_network_from_file. cbn [read_text content].
  rewrite !(search_strip ip_cidr_pattern _ eq_refl).
  rewrite !list_ascii_of_string_app.
  rewrite (search_spaces_app ip_cidr_pattern _ _ eq_refl Hb).
  now rewrite (search_app_spaces ip_cidr_pattern _ eq_refl Ha).
Qed.

Lemma load_network_ignores_outer_space_witness :
  load_network_from_file
    (Some (mkFile 100 (Some ((" " ++ Scenario.nl) ++ "10.0.0.5/24" ++ Scenario.nl))))
  = load_network_from_file (Some (mkFile 100 (Some "10.0.0.5/24"))).
Proof.
  apply (load_network_ignores_outer_space 100 (" " ++ Scenario.nl)
           "10.0.0.5/24" Scenario.nl); reflexivity.
Defined.

(** *** The arithmetic of a resolved subnet *)

Lemma isdigit_code c :
  isdigit c = true -> (48 <= Z.of_nat (nat_of_ascii c) <= 57)%Z.
Proof.
  unfold isdigit, in_range. intros H. apply andb_true_iff in H as [H1 H2].
  apply Nat.leb_le in H1, H2. lia.
Qed.

Lemma int_of_digits_nonneg s :
  forallb isdigit s = true -> (0 <= int_of_digits s)%Z.
Proof.
  unfold int_of_digits.
  assert (H : forall acc, (0 <= acc)%Z -> forallb isdigit s = true ->
            (0 <= fold_left
                    (fun acc c => 10 * acc + (Z.of_nat (nat_of_ascii c) - 48))%Z
                    s acc)%Z).
  { induction s as [|c s IH]; cbn [fold_left forallb]; intros acc Hacc Hs;
      [exact Hacc|].
    apply andb_true_iff in Hs as [Hc Hs]. apply IH; [|exact Hs].
    pose proof (isdigit_code c Hc). lia. }
  apply H. lia.
Qed.

Lemma parse_octet_range o v : parse_octet o = Some v -> (0 <= v <= 255)%Z.
Proof.
  unfold parse_octet. destruct o as [|c o]; [discriminate|].
  destruct (forallb isdigit (c :: o)) eqn:Hd; [|discriminate]. cbn [negb].
  destruct (3 <? List.length (c :: o))%nat; [discriminate|].
  destruct (negb _ && _); [discriminate|].
  destruct (Z.ltb_spec 255 (int_of_digits (c :: o))); [discriminate|].
  intros [= <-]. split; [now apply int_of_digits_nonneg|assumption].
Qed.

Lemma lor_shiftl_byte acc b :
  (0 <= b < 256)%Z -> Z.lor (Z.shiftl acc 8) b = (acc * 256 + b)%Z.
Proof.
  intros Hb.
  assert (Hdisjoint : Z.land (Z.shiftl acc 8) b = 0%Z).
  { apply Z.bits_inj'. intros n Hn. rewrite Z.land_spec, Z.testbit_0_l.
    destruct (Z.ltb_spec n 8) as [Hlow|Hhigh].
    - now rewrite Z.shiftl_spec_low.
    - assert (Hbit : Z.testbit b n = false).
      { destruct (Z.eq_dec b 0) as [->|Hnz]; [apply Z.testbit_0_l|].
        apply Z.bits_above_log2; [lia|].
        assert (Z.log2 b < 8)%Z by (apply Z.log2_lt_pow2; simpl; lia). lia. }
      rewrite Hbit. apply andb_false_r. }
  rewrite <- (Z.lxor_lor _ _ Hdisjoint), <- (Z.add_nocarry_lxor _ _ Hdisjoint).
  rewrite Z.shiftl_mul_pow2 by lia. reflexivity.
Qed.

Lemma ip_int_from_string_range s v :
  ip_int_from_string s = Some v -> (0 <= v < 2 ^ 32)%Z.
Proof.
  unfold ip_int_from_string.
  destruct (split "." s) as [|a [|b [|c [|d [|x l]]]]]; try discriminate.
  destruct (parse_octet a) as [va|] eqn:Ha; [|discriminate].
  destruct (parse_octet b) as [vb|] eqn:Hb; [|discriminate].
  destruct (parse_octet c) as [vc|] eqn:Hc; [|discriminate].
  destruct (parse_octet d) as [vd|] eqn:Hd; [|discriminate].
  intros [= <-].
  apply parse_octet_range in Ha, Hb, Hc, Hd.
  unfold from_bytes. cbn [fold_left].
  rewrite !lor_shiftl_byte by lia.
  change (2 ^ 32)%Z with 4294967296%Z. lia.
Qed.

Lemma prefix_from_prefix_string_range s p :
  prefix_from_prefix_string s = Some p -> (0 <= p <= 32)%Z.
Proof.
  unfold prefix_from_prefix_string. destruct s as [|c s]; [discriminate|].
  destruct (forallb isdigit (c :: s)) eqn:Hd; [|discriminate]. cbn [negb].
  destruct (int_max_str_digits <? List.length (c :: s))%nat; [discriminate|].
  destruct (Z.leb_spec (int_of_digits (c :: s)) 32); [|discriminate].
  intros [= <-]. split; [now apply int_of_digits_nonneg|assumption].
Qed.

(** A fact checked for each prefix length holds for all of them. *)
Lemma for_each_prefix (P : Z -> bool) :
  forallb P (map Z.of_nat (seq 0 33)) = true ->
  forall p, (0 <= p <= 32)%Z -> P p = true.
Proof.
  intros Hall p Hp. rewrite forallb_forall in Hall. apply Hall.
  rewrite <- (Z2Nat.id p) by lia. apply in_map. apply in_seq. lia.
Qed.

Lemma mask_facts_hold p : (0 <= p <= 32)%Z -> mask_facts p = true.
Proof. apply (for_each_prefix mask_facts). vm_compute. reflexivity. Qed.

Lemma IPv4Interface_parts s iface :
  IPv4Interface s = Some iface ->
  exists addr mask,
    split "/" s = [addr; mask]
    /\ ip_int_from_string addr = Some (iface_ip iface)
    /\ prefix_from_prefix_string mask = Some (prefixlen iface)
    /\ network_address iface
       = Z.land (iface_ip iface)
           (Z.lxor ALL_ONES (Z.shiftr ALL_ONES (prefixlen iface))).
Proof.
  unfold IPv4Interface.
  destruct (split "/" s) as [|addr [|mask [|x l]]]; try discriminate.
  destruct (ip_int_from_string addr) as [v|] eqn:Hv; [|discriminate].
  destruct (prefix_from_prefix_string mask) as [p|] eqn:Hp; [|discriminate].
  intros H. destruct iface as [v0 n0 p0].
  cbn [iface_ip network_address prefixlen].
  assert (E1 : v = v0) by congruence.
  assert (E2 : n0 = Z.land v (Z.lxor ALL_ONES (Z.shiftr ALL_ONES p))) by congruence.
  assert (E3 : p = p0) by congruence.
  subst v0 p0. exists addr, mask.
  split; [reflexivity|]. split; [exact Hv|]. split; [exact Hp|exact E2].
Qed.

(** The host address splits into the network address and the host part. *)
Lemma interface_arithmetic s iface :
  IPv4Interface s = Some iface ->
  (0 <= prefixlen iface <= 32)%Z
  /\ (0 <= iface_ip iface < 2 ^ 32)%Z
  /\ num_addresses iface = (2 ^ (32 - prefixlen iface))%Z
  /\ network_address iface
     = (iface_ip iface - iface_ip iface mod 2 ^ (32 - prefixlen iface))%Z.
Proof.
  intros Hi. destruct (IPv4Interface_parts s iface Hi)
    as [addr [mask [_ [Hip [Hp Hnet]]]]].
  apply ip_int_from_string_range in Hip.
  apply prefix_from_prefix_string_range in Hp.
  pose proof (mask_facts_hold _ Hp) as Hm. unfold mask_facts in Hm.
  repeat (apply andb_true_iff in Hm as [Hm ?]).
  repeat match goal with hm : (_ =? _)%Z = true |- _ => apply Z.eqb_eq in hm end.
  set (p := prefixlen iface) in *. set (v := iface_ip iface) in *.
  set (hm := Z.ones (32 - p)) in *.
  match goal with Hs : Z.shiftr ALL_ONES p = hm |- _ => rewrite Hs in Hnet end.
  assert (Hnm : forall i, Z.testbit (Z.lxor ALL_ONES hm) i && Z.testbit hm i = false).
  { intros i. rewrite <- Z.land_spec.
    match goal with Hz : Z.land (Z.lxor ALL_ONES hm) hm = 0%Z |- _ => rewrite Hz end.
    apply Z.testbit_0_l. }
  assert (Hdisj : Z.land (network_address iface) hm = 0%Z).
  { rewrite Hnet. apply Z.bits_inj'. intros i _.
    rewrite !Z.land_spec, Z.testbit_0_l, <- andb_assoc, Hnm. apply andb_false_r. }
  assert (Hhost : Z.land v hm = (v mod 2 ^ (32 - p))%Z)
    by (apply Z.land_ones; lia).
  assert (Hsum : v = (network_address iface + Z.land v hm)%Z).
  { assert (Hd2 : Z.land (network_address iface) (Z.land v hm) = 0%Z).
    { rewrite Hnet. apply Z.bits_inj'. intros i _.
      rewrite !Z.land_spec, Z.testbit_0_l.
      specialize (Hnm i).
      destruct (Z.testbit v i), (Z.testbit (Z.lxor ALL_ONES hm) i),
        (Z.testbit hm i); cbn [andb] in *; congruence. }
    rewrite (Z.add_nocarry_lxor _ _ Hd2), (Z.lxor_lor _ _ Hd2), Hnet.
    rewrite <- Z.land_lor_distr_r.
    match goal with Hz : Z.lor (Z.lxor ALL_ONES hm) hm = ALL_ONES |- _ => rewrite Hz end.
    change ALL_ONES with (Z.ones 32). rewrite Z.land_ones by lia.
    symmetry. apply Z.mod_small. exact Hip. }
  split; [exact Hp|]. split; [exact Hip|]. split.
  - unfold num_addresses, broadcast_address, hostmask, netmask.
    fold p.
    match goal with Hs : Z.shiftr ALL_ONES p = hm |- _ => rewrite Hs end.
    match goal with Hx : Z.lxor (Z.lxor ALL_ONES hm) ALL_ONES = hm |- _ => rewrite Hx end.
    rewrite <- (Z.lxor_lor _ _ Hdisj), <- (Z.add_nocarry_lxor _ _ Hdisj).
    unfold hm. rewrite Z.ones_equiv. lia.
  - rewrite <- Hhost. lia.
Qed.

Lemma get_scan_interval_is_period self : get_scan_interval self = period (hosts self).
Proof.
  unfold get_scan_interval, period.
  destruct (Z.leb_spec (hosts self) 256); [reflexivity|].
  destruct (Z.ltb_spec 256 (hosts self)); [|lia]. reflexivity.
Qed.

(** X16.  The subnet [load_network_from_file] returns is consistent: the
    address count is 2^(32 - p) for the prefix length p written in the file
    (0 to 32, so between 1 and 2^32 addresses), the network address is the
    host address with its low 32 - p bits cleared, hence a multiple of the
    count, and the host address lies in the network.  The advisory threshold
    is passed exactly for prefixes shorter than /20 (a /20 itself has 4096
    addresses and gets no advisory), and the scan interval is 1000 ms from
    /24 on, 2000 ms for /22 and /23, 4000 ms below. *)
Theorem resolved_subnet_arithmetic :
  forall (ip_file : FileSystem) (n a : string) (h : Z),
    load_network_from_file ip_file = Ret (n, a, h) ->
    exists iface : Interface,
      n = str_network iface /\ a = str_address (iface_ip iface)
      /\ (0 <= prefixlen iface <= 32)%Z
      /\ h = (2 ^ (32 - prefixlen iface))%Z
      /\ (1 <= h <= 2 ^ 32)%Z
      /\ (network_address iface mod h = 0)%Z
      /\ (network_address iface <= iface_ip iface < network_address iface + h)%Z
      /\ ((MAX_HOSTS_WARNING < h)%Z <-> (prefixlen iface < 20)%Z)
      /\ forall self : Scanner,
           hosts self = h ->
           get_scan_interval self
           = (if 24 <=? prefixlen iface then 1000
              else if 22 <=? prefixlen iface then 2000 else 4000)%Z.
Proof.
  intros ip_file n a h Hload.
  unfold load_network_from_file in Hload.
  destruct (read_text ip_file) as [text|e]; [|discriminate].
  destruct (search ip_cidr_pattern _) as [m|]; [|discriminate].
  unfold subnet_of, ip_interface in Hload.
  destruct (IPv4Interface _) as [iface|] eqn:Hi; [|discriminate].
  injection Hload as Hn Ha Hh. subst n a h. exists iface.
  destruct (interface_arithmetic _ _ Hi) as [Hp [Hip [Hnum Hnet]]].
  pose proof (mask_facts_hold _ Hp) as Hm. unfold mask_facts in Hm.
  repeat (apply andb_true_iff in Hm as [Hm ?]).
  assert (Hpos : (0 < 2 ^ (32 - prefixlen iface))%Z)
    by (apply Z.pow_pos_nonneg; lia).
  assert (Hle : (2 ^ (32 - prefixlen iface) <= 2 ^ 32)%Z)
    by (apply Z.pow_le_mono_r; lia).
  pose proof (Z.mod_pos_bound (iface_ip iface) _ Hpos) as Hmod.
  rewrite Hnum.
  split; [reflexivity|]. split; [reflexivity|]. split; [exact Hp|].
  split; [reflexivity|]. split; [lia|]. split; [|split; [|split]].
  - rewrite Hnet.
    rewrite (Z.div_mod (iface_ip iface) (2 ^ (32 - prefixlen iface))) at 1 by lia.
    replace (2 ^ (32 - prefixlen iface) * (iface_ip iface / 2 ^ (32 - prefixlen iface))
             + iface_ip iface mod 2 ^ (32 - prefixlen iface)
             - iface_ip iface mod 2 ^ (32 - prefixlen iface))%Z
      with (iface_ip iface / 2 ^ (32 - prefixlen iface)
            * 2 ^ (32 - prefixlen iface))%Z by lia.
    apply Z.mod_mul. lia.
  - rewrite Hnet. lia.
  - match goal with Hb : Bool.eqb _ _ = true |- _ => apply Bool.eqb_prop in Hb;
      rewrite <- Z.ltb_lt, Hb, Z.ltb_lt end. tauto.
  - intros self Hself. rewrite get_scan_interval_is_period, Hself.
    match goal with Hq : (period _ =? _)%Z = true |- _ => apply Z.eqb_eq in Hq;
      exact Hq end.
Qed.

Lemma resolved_subnet_arithmetic_witness :
  exists iface : Interface,
    "172.16.0.0/16" = str_network iface /\ "172.16.5.9" = str_address (iface_ip iface)
    /\ (0 <= prefixlen iface <= 32)%Z
    /\ 65536%Z = (2 ^ (32 - prefixlen iface))%Z
    /\ (1 <= 65536 <= 2 ^ 32)%Z
    /\ (network_address iface mod 65536 = 0)%Z
    /\ (network_address iface <= iface_ip iface < network_address iface + 65536)%Z
    /\ ((MAX_HOSTS_WARNING < 65536)%Z <-> (prefixlen iface < 20)%Z)
    /\ forall self : Scanner,
         hosts self = 65536%Z ->
         get_scan_interval self
         = (if 24 <=? prefixlen iface then 1000
            else if 22 <=? prefixlen iface then 2000 else 4000)%Z.
Proof.
  apply (resolved_subnet_arithmetic Scenario.file16 "172.16.0.0/16" "172.16.5.9" 65536).
  vm_compute. reflexivity.
Defined.

(** *** The host address as written *)

Lemma split_not_empty sep s : split sep s <> [].
Proof.
  destruct s as [|c s]; simpl; [discriminate|].
  destruct (Ascii.eqb c sep); [discriminate|].
  destruct (split sep s); discriminate.
Qed.

Lemma join_split sep s : join sep (split sep s) = s.
Proof.
  induction s as [|c s IH]; [reflexivity|].
  cbn [split]. pose proof (split_not_empty sep s) as Hne.
  destruct (Ascii.eqb_spec c sep) as [->|_].
  - destruct (split sep s) as [|part parts]; [contradiction|].
    cbn [join app]. cbn [join] in IH. now rewrite IH.
  - destruct (split sep s) as [|part parts]; [contradiction|].
    destruct parts as [|part' parts]; cbn [join app] in *; now rewrite IH.
Qed.

Lemma isdigit_in_digits10 c : isdigit c = true -> In c digits10.
Proof.
  destruct c as [[] [] [] [] [] [] [] []]; vm_compute; intros H;
    try discriminate H; tauto.
Qed.

Lemma octet_text_listed o :
  forallb isdigit o = true -> (1 <= List.length o <= 3)%nat ->
  In o octet_texts.
Proof.
  intros Hd Hlen. unfold octet_texts.
  destruct o as [|a [|b [|c [|x o]]]]; simpl in Hlen; try lia;
    cbn [forallb] in Hd;
    repeat match goal with
           | H : _ && _ = true |- _ => apply andb_true_iff in H as [? ?]
           end;
    repeat match goal with
           | H : isdigit _ = true |- _ => apply isdigit_in_digits10 in H
           end.
  - apply in_or_app; left. now apply (in_map (fun a => [a]) digits10 a).
  - apply in_or_app; right. apply in_or_app; left.
    apply in_flat_map. exists a. split; [assumption|].
    now apply (in_map (fun b => [a; b]) digits10 b).
  - apply in_or_app; right. apply in_or_app; right.
    apply in_flat_map. exists a. split; [assumption|].
    apply in_flat_map. exists b. split; [assumption|].
    now apply (in_map (fun c => [a; b; c]) digits10 c).
Qed.

Lemma octet_texts_print_back : forallb octet_prints_back octet_texts = true.
Proof. vm_compute. reflexivity. Qed.

Lemma parse_octet_prints_back o v :
  parse_octet o = Some v -> list_ascii_of_string (str_int v) = o.
Proof.
  intros Hv.
  assert (Hin : In o octet_texts).
  { unfold parse_octet in Hv. destruct o as [|c o]; [discriminate|].
    destruct (forallb isdigit (c :: o)) eqn:Hd; [|discriminate]. cbn [negb] in Hv.
    destruct (Nat.ltb_spec 3 (List.length (c :: o))); [discriminate|].
    apply octet_text_listed; [exact Hd|simpl in *; lia]. }
  pose proof octet_texts_print_back as Hall. rewrite forallb_forall in Hall.
  specialize (Hall o Hin). unfold octet_prints_back in Hall. rewrite Hv in Hall.
  apply String.eqb_eq in Hall. rewrite Hall.
  apply list_ascii_of_string_of_list_ascii.
Qed.

Lemma from_bytes_bytes a b c d :
  (0 <= a <= 255)%Z -> (0 <= b <= 255)%Z -> (0 <= c <= 255)%Z -> (0 <= d <= 255)%Z ->
  let v := from_bytes [a; b; c; d] in
  Z.land (Z.shiftr v 24) 255 = a /\ Z.land (Z.shiftr v 16) 255 = b
  /\ Z.land (Z.shiftr v 8) 255 = c /\ Z.land v 255 = d.
Proof.
  intros Ha Hb Hc Hd v.
  assert (Hv : v = (((a * 256 + b) * 256 + c) * 256 + d)%Z).
  { unfold v, from_bytes. cbn [fold_left]. rewrite !lor_shiftl_byte by lia. lia. }
  change 255%Z with (Z.ones 8).
  rewrite !Z.land_ones, !Z.shiftr_div_pow2 by lia.
  change (2 ^ 24)%Z with 16777216%Z. change (2 ^ 16)%Z with 65536%Z.
  change (2 ^ 8)%Z with 256%Z.
  rewrite Hv. repeat split; Z.div_mod_to_equations; lia.
Qed.

Lemma ip_int_from_string_prints_back s v :
  ip_int_from_string s = Some v ->
  list_ascii_of_string (str_address v) = s.
Proof.
  unfold ip_int_from_string. pose proof (join_split "." s) as Hjoin.
  destruct (split "." s) as [|a [|b [|c [|d [|x l]]]]]; try discriminate.
  destruct (parse_octet a) as [va|] eqn:Ha; [|discriminate].
  destruct (parse_octet b) as [vb|] eqn:Hb; [|discriminate].
  destruct (parse_octet c) as [vc|] eqn:Hc; [|discriminate].
  destruct (parse_octet d) as [vd|] eqn:Hd; [|discriminate].
  intros Hv. assert (Ev : v = from_bytes [va; vb; vc; vd]) by congruence.
  destruct (from_bytes_bytes va vb vc vd
              (parse_octet_range _ _ Ha) (parse_octet_range _ _ Hb)
              (parse_octet_range _ _ Hc) (parse_octet_range _ _ Hd))
    as [E1 [E2 [E3 E4]]].
  unfold str_address. rewrite Ev, E1, E2, E3, E4.
  rewrite !list_ascii_of_string_app.
  rewrite (parse_octet_prints_back a va Ha), (parse_octet_prints_back b vb Hb),
    (parse_octet_prints_back c vc Hc), (parse_octet_prints_back d vd Hd).
  rewrite <- Hjoin. reflexivity.
Qed.

(** X17.  No rewriting of the host address takes place: when
    [load_network_from_file] returns, the first match in the file is the
    returned [my_ip], a '/', and a run of digits.  So the address that
    [update] compares with the replies' source addresses is the address
    exactly as it stands in ip.txt. *)
Theorem my_ip_is_the_address_as_written :
  forall (ip_file : FileSystem) (n a : string) (h : Z),
    load_network_from_file ip_file = Ret (n, a, h) ->
    exists (text : string) (mask : list ascii),
      read_text ip_file = Ret text
      /\ search ip_cidr_pattern (list_ascii_of_string text)
         = Some (list_ascii_of_string a ++ "/"%char :: mask)%list
      /\ mask <> [] /\ forallb isdigit mask = true.
Proof.
  intros ip_file n a h Hload. unfold load_network_from_file in Hload.
  destruct (read_text ip_file) as [text|e]; [|discriminate].
  rewrite (search_strip ip_cidr_pattern _ eq_refl) in Hload.
  destruct (search ip_cidr_pattern (list_ascii_of_string text)) as [m|] eqn:Hm;
    [|discriminate].
  unfold subnet_of, ip_interface in Hload.
  rewrite list_ascii_of_string_of_list_ascii in Hload.
  destruct (IPv4Interface m) as [iface|] eqn:Hi; [|discriminate].
  injection Hload as Hn Ha Hh.
  destruct (IPv4Interface_parts m iface Hi) as [addr [mask [Hsplit [Hip [Hp _]]]]].
  exists text, mask. split; [reflexivity|].
  pose proof (join_split "/" m) as Hjoin. rewrite Hsplit in Hjoin.
  cbn [join] in Hjoin.
  rewrite Hm, <- Ha, (ip_int_from_string_prints_back addr _ Hip), Hjoin.
  split; [reflexivity|].
  unfold prefix_from_prefix_string in Hp. destruct mask as [|c mask]; [discriminate|].
  split; [discriminate|].
  destruct (forallb isdigit (c :: mask)); [reflexivity|discriminate].
Qed.

Lemma my_ip_is_the_address_as_written_witness :
  exists (text : string) (mask : list ascii),
    read_text Scenario.file24 = Ret text
    /\ search ip_cidr_pattern (list_ascii_of_string text)
       = Some (list_ascii_of_string "10.0.0.5" ++ "/"%char :: mask)%list
    /\ mask <> [] /\ forallb isdigit mask = true.
Proof.
  apply (my_ip_is_the_address_as_written Scenario.file24 "10.0.0.0/24" "10.0.0.5" 256).
  vm_compute. reflexivity.
Defined.

(** ** The console of a run *)

Lemma count_lines_app kind out1 out2 :
  count_lines kind (out1 ++ out2)
  = (count_lines kind out1 + count_lines kind out2)%nat.
Proof. unfold count_lines. now rewrite filter_app, length_app. Qed.

Lemma count_lines_warning kind h :
  kind (LogWARN h) = false -> count_lines kind (warning h) = 0%nat.
Proof.
  intros Hk. unfold warning, count_lines.
  destruct (MAX_HOSTS_WARNING <? h)%Z; simpl; [now rewrite Hk|reflexivity].
Qed.

(** The lines of [update] are diff lines only. *)
Lemma count_lines_update kind self new_devices :
  (forall m, classification m <> None -> kind m = false) ->
  count_lines kind (snd (update self new_devices)) = 0%nat.
Proof.
  intros Hk. unfold count_lines.
  assert (Hall : forall m, In m (snd (update self new_devices)) -> kind m = false).
  { intros m Hm. apply Hk. unfold update in Hm. cbn [snd] in Hm.
    apply in_app_iff in Hm as [Hm|Hm].
    - apply in_map_iff in Hm as [kv [<- _]].
      rewrite classification_update_log_line. discriminate.
    - apply in_flat_map in Hm as [kv [_ Hm]]. unfold update_log_off in Hm.
      destruct (negb _); [|destruct Hm].
      destruct Hm as [<-|[]]. discriminate. }
  induction (snd (update self new_devices)) as [|m out IH]; [reflexivity|].
  simpl. rewrite (Hall m) by now left. apply IH. intros m' Hm'. apply Hall. now right.
Qed.

Section Console.

Variable get_manuf : string -> option string.

Lemma handle_console_ok ev p p' :
  console_ok (console p) -> handle get_manuf ev p = Alive p' ->
  console_ok (console p').
Proof.
  unfold console_ok. intros [Hi He].
  destruct ev as [|ip_file|i answers|i]; cbn [handle].
  - destruct (start_scan (win p)). intros [= <-]. simpl. auto.
  - destruct ip_file as [f|]; [|rewrite check_ip_file_missing; intros [= <-]; simpl;
                                 rewrite app_nil_r; auto].
    destruct (mtime_differs (st_mtime f) (last_ip_mtime (win p))) eqn:Hd.
    + destruct (load_network_from_file (Some f)) as [[[n a] h]|e] eqn:Hload.
      * rewrite (check_ip_file_reload (win p) f _ Hd Hload).
        intros [= <-]. cbn [console fst snd].
        rewrite !count_lines_app.
        change (LogINFO :: LogINIT n :: warning h)
          with ([LogINFO; LogINIT n] ++ warning h)%list.
        rewrite !count_lines_app, !count_lines_warning by reflexivity.
        cbn. lia.
      * rewrite (check_ip_file_reload_fails (win p) f e Hd Hload). discriminate.
    + rewrite (check_ip_file_same (win p) f Hd). intros [= <-]. simpl.
      rewrite app_nil_r. auto.
  - destruct (nth_error (sweeps p) i); intros [= <-]; simpl; auto.
  - destruct (nth_error (pending p) i) as [[d|]|]; [| |intros [= <-]; auto].
    + destruct (update (win p) d) as [w out] eqn:Hu. intros [= <-].
      cbn [console]. replace out with (snd (update (win p) d)) by now rewrite Hu.
      rewrite !count_lines_app.
      rewrite !(count_lines_update _ (win p) d)
        by (intros [] Hc; try reflexivity; now elim Hc).
      lia.
    + intros [= <-]. cbn [console]. auto.
Qed.

(** X18.  Every reload is announced and no error is survived: in every
    state the process reaches, its console holds no [ERROR] line and
    exactly one [INIT] line more than [INFO] lines (the one of the start,
    then one per reload). *)
Theorem live_console_discipline :
  forall (ip_file : FileSystem) (evs : list Event) (p : Process),
    execute get_manuf ip_file evs = Alive p ->
    count_lines is_ERROR (console p) = 0%nat
    /\ count_lines is_INIT (console p) = S (count_lines is_INFO (console p)).
Proof.
  intros ip_file evs p Hrun.
  destruct (execute_alive get_manuf _ _ _ Hrun) as [p0 [Hstart Hfold]].
  assert (H0 : console_ok (console p0)).
  { destruct ip_file as [f|]; [|discriminate].
    destruct (load_network_from_file (Some f)) as [[[n a] h]|e] eqn:Hload.
    - destruct (startup_ok f n a h Hload) as [w [Hs _]].
      rewrite Hs in Hstart. injection Hstart as <-. cbn [console].
      unfold console_ok.
      change (LogINIT n :: warning h) with ([LogINIT n] ++ warning h)%list.
      rewrite !count_lines_app, !count_lines_warning by reflexivity.
      split; reflexivity.
    - unfold startup, init in Hstart. cbn [bind] in Hstart.
      rewrite (safe_load_ip_fail _ _ e Hload) in Hstart. discriminate. }
  destruct (fold_advance_invariant get_manuf (fun q => console_ok (console q))
              handle_console_ok evs p0 p H0 Hfold) as [Hi He].
  split; assumption.
Qed.

End Console.

Lemma live_console_discipline_witness :
  count_lines is_ERROR
    (console (Scenario.after [WatchTick Scenario.file16; SweepDone 0 Sample.replies;
                              Deliver 0])) = 0%nat
  /\ count_lines is_INIT
       (console (Scenario.after [WatchTick Scenario.file16; SweepDone 0 Sample.replies;
                                 Deliver 0]))
     = S (count_lines is_INFO
            (console (Scenario.after [WatchTick Scenario.file16;
                                      SweepDone 0 Sample.replies; Deliver 0]))).
Proof.
  apply (live_console_discipline Sample.vendors Scenario.file24
           [WatchTick Scenario.file16; SweepDone 0 Sample.replies; Deliver 0]).
  vm_compute. reflexivity.
Defined.

(** ** Console and table agree *)

Lemma background_update_row self kv :
  background (update_row self kv) = highlight (Some (fresh_tag self (fst kv), fst kv)).
Proof.
  unfold update_row, fresh_tag, highlight. cbn [background].
  destruct (String.eqb (fst kv) (my_ip self)); [reflexivity|].
  destruct (negb (Dict.mem (fst kv) (devices self))); reflexivity.
Qed.

(** X19.  The two loops of [update] agree: the table has one row per entry
    of the fresh dictionary, and the i-th row is highlighted as the i-th
    console line is tagged: the own-address colour for [ME], the new-device
    colour for [NEW], no colour for [ON].  The [OFF] lines that follow have
    no row. *)
Theorem update_table_matches_console :
  forall (self : Scanner) (fresh : Dict.dict Device),
    let out := update self fresh in
    List.length (table (fst out)) = List.length fresh
    /\ map background (table (fst out))
       = map highlight (firstn (List.length fresh) (classified (snd out)))
    /\ skipn (List.length fresh) (classified (snd out))
       = map (fun k => Some (ABSENT, k))
           (filter (fun k => negb (Dict.mem k fresh)) (Dict.keys (devices self))).
Proof.
  intros self fresh out.
  destruct (update_console_order_aux self fresh) as [Hc _]. fold out in Hc.
  assert (Hlen : List.length (map (fun k => Some (fresh_tag self k, k)) (Dict.keys fresh))
                 = List.length fresh)
    by (unfold Dict.keys; now rewrite !length_map).
  split; [|split].
  - unfold out, update. cbn [fst table set_devices set_table]. apply length_map.
  - rewrite Hc, <- Hlen, firstn_length_app.
    unfold out, update. cbn [fst table set_devices set_table].
    unfold Dict.keys. rewrite !map_map. apply map_ext.
    intros kv. apply background_update_row.
  - rewrite Hc, <- Hlen. apply skipn_length_app.
Qed.

(** ** The parse of the first match *)

Lemma Matches_digits_inv p w :
  Matches (DigitsPlus :: p) w ->
  exists d w', w = (d ++ w')%list /\ digits d /\ Matches p w'.
Proof.
  intros H. inversion H as [| |d p' w' Hne Hd Hw]; subst.
  exists d, w'. repeat split; assumption.
Qed.

Lemma Matches_lit_inv c p w :
  Matches (Lit c :: p) w -> exists w', w = c :: w' /\ Matches p w'.
Proof. intros H. inversion H; subst. eauto. Qed.

Lemma Matches_nil_inv w : Matches [] w -> w = [].
Proof. intros H. now inversion H. Qed.

(** A match of the pattern is four runs of digits between dots, a slash and
    a fifth run. *)
Lemma Matches_ip_cidr_pattern m :
  Matches ip_cidr_pattern m ->
  exists o1 o2 o3 o4 mask,
    m = cidr_text o1 o2 o3 o4 mask
    /\ digits o1 /\ digits o2 /\ digits o3 /\ digits o4 /\ digits mask.
Proof.
  unfold ip_cidr_pattern. intros H.
  apply Matches_digits_inv in H as [o1 [w1 [-> [H1 H]]]].
  apply Matches_lit_inv in H as [w2 [-> H]].
  apply Matches_digits_inv in H as [o2 [w3 [-> [H2 H]]]].
  apply Matches_lit_inv in H as [w4 [-> H]].
  apply Matches_digits_inv in H as [o3 [w5 [-> [H3 H]]]].
  apply Matches_lit_inv in H as [w6 [-> H]].
  apply Matches_digits_inv in H as [o4 [w7 [-> [H4 H]]]].
  apply Matches_lit_inv in H as [w8 [-> H]].
  apply Matches_digits_inv in H as [mask [w9 [-> [H5 H]]]].
  apply Matches_nil_inv in H. subst w9. rewrite app_nil_r.
  exists o1, o2, o3, o4, mask. split; [|auto 6].
  unfold cidr_text, address_text.
  do 3 (rewrite <- app_assoc; cbn [app]). reflexivity.
Qed.

Lemma split_no_sep sep d : ~ In sep d -> split sep d = [d].
Proof.
  induction d as [|c d IH]; intros Hnot; [reflexivity|].
  cbn [split]. destruct (Ascii.eqb_spec c sep) as [->|_].
  - exfalso. apply Hnot. now left.
  - rewrite IH; [reflexivity|]. intros Hin. apply Hnot. now right.
Qed.

Lemma split_app_sep sep d rest :
  ~ In sep d -> split sep (d ++ sep :: rest) = d :: split sep rest.
Proof.
  induction d as [|c d IH]; intros Hnot.
  - cbn [app split]. now rewrite Ascii.eqb_refl.
  - cbn [app split]. destruct (Ascii.eqb_spec c sep) as [->|_].
    + exfalso. apply Hnot. now left.
    + rewrite IH; [reflexivity|]. intros Hin. apply Hnot. now right.
Qed.

Lemma digits_without c d : isdigit c = false -> digits d -> ~ In c d.
Proof.
  intros Hc [_ Hd] Hin. rewrite forallb_forall in Hd.
  rewrite (Hd c Hin) in Hc. discriminate.
Qed.

Lemma split_dots o1 o2 o3 o4 :
  digits o1 -> digits o2 -> digits o3 -> digits o4 ->
  split "." (address_text o1 o2 o3 o4) = [o1; o2; o3; o4].
Proof.
  intros H1 H2 H3 H4. unfold address_text.
  rewrite !split_app_sep by (apply digits_without; [reflexivity|assumption]).
  rewrite split_no_sep by (apply digits_without; [reflexivity|assumption]).
  reflexivity.
Qed.

Lemma split_slash o1 o2 o3 o4 mask :
  digits o1 -> digits o2 -> digits o3 -> digits o4 -> digits mask ->
  split "/" (cidr_text o1 o2 o3 o4 mask) = [address_text o1 o2 o3 o4; mask].
Proof.
  intros H1 H2 H3 H4 H5. unfold cidr_text.
  rewrite split_app_sep.
  - rewrite split_no_sep by (apply digits_without; [reflexivity|assumption]).
    reflexivity.
  - unfold address_text. intros Hin.
    repeat (apply in_app_iff in Hin as [Hin|Hin];
            [revert Hin; apply digits_without; [reflexivity|assumption]|];
            destruct Hin as [Hin|Hin]; [discriminate Hin|]).
    revert Hin. apply digits_without; [reflexivity|assumption].
Qed.

Lemma parse_octet_digits o :
  digits o ->
  parse_octet o = if octet_ok o then Some (int_of_digits o) else None.
Proof.
  intros [Hne Hd]. unfold parse_octet, octet_ok, leading_zero.
  destruct o as [|c o]; [contradiction|]. rewrite Hd. cbn [negb].
  destruct (Nat.ltb_spec 3 (List.length (c :: o))) as [Hlong|Hshort].
  - destruct (Nat.leb_spec (List.length (c :: o)) 3); [lia|].
    now rewrite andb_false_r.
  - destruct (Nat.leb_spec (List.length (c :: o)) 3); [|lia].
    rewrite andb_true_r.
    assert (Hzero : negb (String.eqb (string_of_list_ascii (c :: o)) "0")
                    && Ascii.eqb c "0"
                    = match o with _ :: _ => Ascii.eqb c "0" | [] => false end).
    { destruct o as [|c' o].
      - cbn [string_of_list_ascii].
        destruct (Ascii.eqb_spec c "0") as [->|Hc]; [reflexivity|].
        now rewrite andb_false_r.
      - destruct (Ascii.eqb_spec c "0") as [->|Hc];
          [|now rewrite andb_false_r].
        rewrite andb_true_r. cbn [string_of_list_ascii].
        destruct (String.eqb_spec (String "0" (String c' (string_of_list_ascii o))) "0");
          [discriminate|reflexivity]. }
    rewrite Hzero.
    destruct (match o with _ :: _ => Ascii.eqb c "0" | [] => false end);
      [reflexivity|]. cbn [negb andb].
    destruct (Z.ltb_spec 255 (int_of_digits (c :: o)));
      destruct (Z.leb_spec (int_of_digits (c :: o)) 255); try lia; reflexivity.
Qed.

Lemma prefix_from_prefix_string_digits mask :
  digits mask ->
  prefix_from_prefix_string mask
  = if prefix_ok mask then Some (int_of_digits mask) else None.
Proof.
  intros [Hne Hd]. unfold prefix_from_prefix_string, prefix_ok.
  destruct mask as [|c mask]; [contradiction|]. rewrite Hd. cbn [negb].
  destruct (Nat.ltb_spec int_max_str_digits (List.length (c :: mask)));
    destruct (Nat.leb_spec (List.length (c :: mask)) int_max_str_digits);
    try lia; reflexivity.
Qed.

Lemma octet_ok_range o :
  digits o -> octet_ok o = true -> (0 <= int_of_digits o <= 255)%Z.
Proof.
  intros [_ Hd] Hok. unfold octet_ok in Hok.
  apply andb_true_iff in Hok as [_ Hok]. apply Z.leb_le in Hok.
  split; [now apply int_of_digits_nonneg|exact Hok].
Qed.

Lemma str_address_dotted v : (0 <= v < 2 ^ 32)%Z -> str_address v = dotted v.
Proof.
  intros Hv. unfold str_address, dotted.
  change 255%Z with (Z.ones 8).
  rewrite !Z.land_ones, !Z.shiftr_div_pow2 by lia.
  change (2 ^ 24)%Z with 16777216%Z. change (2 ^ 16)%Z with 65536%Z.
  change (2 ^ 8)%Z with 256%Z. change (2 ^ 32)%Z with 4294967296%Z in Hv.
  replace ((v / 16777216) mod 256)%Z with (v / 16777216)%Z; [reflexivity|].
  symmetry. apply Z.mod_small. Z.div_mod_to_equations. lia.
Qed.

Lemma ip_int_from_string_octets o1 o2 o3 o4 :
  digits o1 -> digits o2 -> digits o3 -> digits o4 ->
  ip_int_from_string (address_text o1 o2 o3 o4)
  = if octet_ok o1 && octet_ok o2 && octet_ok o3 && octet_ok o4
    then Some (from_bytes [int_of_digits o1; int_of_digits o2;
                           int_of_digits o3; int_of_digits o4])
    else None.
Proof.
  intros H1 H2 H3 H4. unfold ip_int_from_string.
  rewrite (split_dots o1 o2 o3 o4 H1 H2 H3 H4).
  rewrite (parse_octet_digits o1 H1), (parse_octet_digits o2 H2),
    (parse_octet_digits o3 H3), (parse_octet_digits o4 H4).
  destruct (octet_ok o1), (octet_ok o2), (octet_ok o3), (octet_ok o4); reflexivity.
Qed.

Lemma from_bytes_arithmetic a b c d :
  (0 <= a <= 255)%Z -> (0 <= b <= 255)%Z -> (0 <= c <= 255)%Z -> (0 <= d <= 255)%Z ->
  from_bytes [a; b; c; d] = (((a * 256 + b) * 256 + c) * 256 + d)%Z.
Proof.
  intros Ha Hb Hc Hd. unfold from_bytes. cbn [fold_left].
  rewrite !lor_shiftl_byte by lia. lia.
Qed.

(** On a text of the pattern's shape the model of the parser and the plain
    arithmetic agree. *)
Lemma subnet_of_cidr_text o1 o2 o3 o4 mask :
  digits o1 -> digits o2 -> digits o3 -> digits o4 -> digits mask ->
  subnet_of (string_of_list_ascii (cidr_text o1 o2 o3 o4 mask))
  = parse_of o1 o2 o3 o4 mask.
Proof.
  intros H1 H2 H3 H4 H5. unfold subnet_of, ip_interface, parse_of.
  rewrite list_ascii_of_string_of_list_ascii.
  pose proof (ip_int_from_string_octets o1 o2 o3 o4 H1 H2 H3 H4) as Haddr.
  pose proof (prefix_from_prefix_string_digits mask H5) as Hmask.
  destruct (IPv4Interface (cidr_text o1 o2 o3 o4 mask)) as [iface|] eqn:Hi.
  - destruct (IPv4Interface_parts _ _ Hi) as [addr [mask' [Hsplit [Hip [Hp _]]]]].
    rewrite (split_slash o1 o2 o3 o4 mask H1 H2 H3 H4 H5) in Hsplit.
    assert (Ea : addr = address_text o1 o2 o3 o4) by congruence.
    assert (Em : mask' = mask) by congruence.
    subst addr mask'.
    rewrite Haddr in Hip. rewrite Hmask in Hp.
    destruct (octet_ok o1 && octet_ok o2 && octet_ok o3 && octet_ok o4) eqn:Hok;
      [|discriminate].
    destruct (prefix_ok mask) eqn:Hpok; [|discriminate]. cbn [andb].
    assert (Ev : iface_ip iface
                 = from_bytes [int_of_digits o1; int_of_digits o2;
                               int_of_digits o3; int_of_digits o4]) by congruence.
    assert (Ep : prefixlen iface = int_of_digits mask) by congruence.
    apply andb_true_iff in Hok as [Hok Hok4].
    apply andb_true_iff in Hok as [Hok Hok3].
    apply andb_true_iff in Hok as [Hok1 Hok2].
    rewrite (from_bytes_arithmetic _ _ _ _ (octet_ok_range o1 H1 Hok1)
               (octet_ok_range o2 H2 Hok2) (octet_ok_range o3 H3 Hok3)
               (octet_ok_range o4 H4 Hok4)) in Ev.
    destruct (interface_arithmetic _ _ Hi) as [Hpr [Hrange [Hnum Hnet]]].
    assert (Hpos : (0 < 2 ^ (32 - prefixlen iface))%Z)
      by (apply Z.pow_pos_nonneg; lia).
    pose proof (Z.mod_pos_bound (iface_ip iface) _ Hpos) as Hmod.
    pose proof (Z.mod_le (iface_ip iface) _ (proj1 Hrange) Hpos) as Hmodle.
    assert (Hn : str_network iface
                 = dotted (iface_ip iface
                           - iface_ip iface mod 2 ^ (32 - prefixlen iface))
                   ++ "/" ++ str_int (prefixlen iface)).
    { unfold str_network. rewrite Hnet. rewrite str_address_dotted by lia.
      reflexivity. }
    assert (Ha : str_address (iface_ip iface)
                 = string_of_list_ascii (address_text o1 o2 o3 o4)).
    { rewrite <- (ip_int_from_string_prints_back (address_text o1 o2 o3 o4)
                    (iface_ip iface)).
      - symmetry. apply string_of_list_ascii_of_string.
      - rewrite Haddr. exact Hip. }
    rewrite Hn, Ha, Hnum, Ev, Ep. reflexivity.
  - assert (Hnone : octet_ok o1 && octet_ok o2 && octet_ok o3 && octet_ok o4
                    && prefix_ok mask = false).
    { unfold IPv4Interface in Hi.
      rewrite (split_slash o1 o2 o3 o4 mask H1 H2 H3 H4 H5), Haddr, Hmask in Hi.
      destruct (octet_ok o1 && octet_ok o2 && octet_ok o3 && octet_ok o4);
        [|reflexivity].
      destruct (prefix_ok mask); [discriminate|reflexivity]. }
    rewrite Hnone. reflexivity.
Qed.

(** ** Resolving the subnet *)

(** C6.  For every text of ip.txt: when some part of it matches the pattern
    (address, '/', prefix length), [load_network_from_file] returns what the
    parser makes of the first match, the one that starts leftmost and is
    longest from there.  That match is four runs of digits between dots, a
    '/' and a fifth run, and the parse is this: when each of the four is an
    octet (at most three digits, no leading zero, at most 255) and the fifth
    a prefix length p of at most 32, the result is the network (the address
    with its low 32 - p bits cleared, dotted, then '/' and p), the host
    address as written, and 2^(32 - p) addresses; otherwise it is the
    parser's [ValueError] naming the match.  When no part of the text
    matches, the function raises the error "No valid IP/CIDR found in
    ip.txt".  The text of the example, foo, 10.0.0.5/24 and bar on three
    lines, gives network 10.0.0.0/24, host address 10.0.0.5 and 256
    addresses. *)
Theorem load_network_from_file_first_match :
  forall (mtime : Z) (text : string),
    let ip_file := Some (mkFile mtime (Some text)) in
    let s := list_ascii_of_string text in
    (has_match ip_cidr_pattern s ->
     exists pre m post,
       first_match ip_cidr_pattern s pre m post
       /\ load_network_from_file ip_file = subnet_of (string_of_list_ascii m)
       /\ exists o1 o2 o3 o4 mask,
            m = cidr_text o1 o2 o3 o4 mask
            /\ digits o1 /\ digits o2 /\ digits o3 /\ digits o4 /\ digits mask
            /\ load_network_from_file ip_file = parse_of o1 o2 o3 o4 mask)
    /\ (~ has_match ip_cidr_pattern s ->
        load_network_from_file ip_file
        = Raise (ValueError "No valid IP/CIDR found in ip.txt"))
    /\ load_network_from_file (Some (mkFile mtime (Some Scenario.example_text)))
       = Ret ("10.0.0.0/24", "10.0.0.5", 256%Z).
Proof.
  intros mtime text ip_file s.
  assert (Hload : load_network_from_file ip_file
                  = match search ip_cidr_pattern s with
                    | None => Raise (ValueError "No valid IP/CIDR found in ip.txt")
                    | Some m => subnet_of (string_of_list_ascii m)
                    end).
  { unfold load_network_from_file, ip_file, s. cbn [read_text content].
    now rewrite (search_strip ip_cidr_pattern _ eq_refl). }
  split; [|split; [|vm_compute; reflexivity]].
  - intros Hsome. destruct (search ip_cidr_pattern s) as [m|] eqn:E.
    + destruct (search_first_match ip_cidr_pattern s m eq_refl E)
        as [pre [post Hfirst]].
      exists pre, m, post. split; [exact Hfirst|]. split; [exact Hload|].
      destruct Hfirst as [_ [Hm _]].
      destruct (Matches_ip_cidr_pattern m Hm)
        as [o1 [o2 [o3 [o4 [mask [-> [H1 [H2 [H3 [H4 H5]]]]]]]]]].
      exists o1, o2, o3, o4, mask. repeat (split; [assumption || reflexivity|]).
      rewrite Hload. now apply subnet_of_cidr_text.
    + exfalso. exact (search_none _ _ E Hsome).
  - intros Hnone. destruct (search ip_cidr_pattern s) as [m|] eqn:E; [|exact Hload].
    exfalso. apply Hnone.
    destruct (search_found _ _ _ E) as [pre [post [Hs [Hm _]]]].
    now exists pre, m, post.
Qed.

Lemma load_network_from_file_first_match_witness :
  exists pre m post,
    first_match ip_cidr_pattern (list_ascii_of_string Scenario.example_text) pre m post
    /\ load_network_from_file Scenario.file24 = subnet_of (string_of_list_ascii m)
    /\ exists o1 o2 o3 o4 mask,
         m = cidr_text o1 o2 o3 o4 mask
         /\ digits o1 /\ digits o2 /\ digits o3 /\ digits o4 /\ digits mask
         /\ load_network_from_file Scenario.file24 = parse_of o1 o2 o3 o4 mask.
Proof.
  destruct (load_network_from_file_first_match 100 Scenario.example_text) as [H _].
  apply H.
  exists (list_ascii_of_string ("foo" ++ Scenario.nl)),
         (list_ascii_of_string "10.0.0.5/24"),
         (list_ascii_of_string (Scenario.nl ++ "bar")).
  split; [reflexivity|].
  exact (proj2 (match_here_sound ip_cidr_pattern
                  (list_ascii_of_string "10.0.0.5/24") 11 eq_refl)).
Defined.
